(** * Shallow embedding of nsyte's upload command (src/commands/upload.ts)

    The relay publish routine [publishToRelays] and the control flow of
    [uploadCommand] are modelled here.  Network, signer, clock, prompts and
    file-system calls are supplied by an explicit [world] record; the relay
    sockets are driven by per-relay traces of WebSocket events. *)

From Stdlib Require Import String Ascii List ZArith Bool Lia Permutation.
Import ListNotations.
Open Scope string_scope.
Set Warnings "-register-all".

(* ------------------------------------------------------------------------- *)
(** ** JavaScript helpers *)

(** [s.includes(pat)] on strings. *)
Fixpoint str_includes (s pat : string) : bool :=
  String.prefix pat s ||
  match s with
  | EmptyString => false
  | String _ s' => str_includes s' pat
  end.

(** [s.endsWith("/")]. *)
Fixpoint ends_with_slash (s : string) : bool :=
  match s with
  | EmptyString => false
  | String c EmptyString => Ascii.eqb c "/"%char
  | String _ s' => ends_with_slash s'
  end.

(** [s.split(",")]. *)
Fixpoint split_comma_aux (s cur : string) : list string :=
  match s with
  | EmptyString => [cur]
  | String c s' =>
      if Ascii.eqb c ","%char then cur :: split_comma_aux s' ""
      else split_comma_aux s' (cur ++ String c EmptyString)
  end.
Definition split_comma (s : string) : list string := split_comma_aux s "".

(** Decimal rendering of an integer, as a template literal [`${n}`] does. *)
Fixpoint dec_aux (fuel : nat) (n : Z) (acc : string) : string :=
  match fuel with
  | O => acc
  | S f =>
      let acc' := String (ascii_of_nat (48 + Z.to_nat (Z.modulo n 10))) acc in
      if (n <? 10)%Z then acc' else dec_aux f (Z.div n 10) acc'
  end.
Definition Z_to_dec (n : Z) : string :=
  if (n <? 0)%Z then String "-" (dec_aux 64 (- n) "") else dec_aux 64 n "".

(** JSON values, as returned by [JSON.parse]. *)
Inductive json : Type :=
| JNull
| JBool (b : bool)
| JNum (n : Z)
| JStr (s : string)
| JArr (l : list json)
| JObj (kv : list (string * json)).

(** JavaScript truthiness of a JSON value. *)
Definition truthy (j : json) : bool :=
  match j with
  | JNull => false
  | JBool b => b
  | JNum n => negb (n =? 0)%Z
  | JStr s => negb (String.eqb s "")
  | JArr _ | JObj _ => true
  end.

(** [String(j)] (template-literal conversion); arrays join their elements
    with commas, rendering [null] as the empty string. *)
Fixpoint js_string (j : json) : string :=
  match j with
  | JNull => "null"
  | JBool true => "true"
  | JBool false => "false"
  | JNum n => Z_to_dec n
  | JStr s => s
  | JArr l =>
      (fix go (l : list json) : string :=
         match l with
         | [] => ""
         | [x] => match x with JNull => "" | _ => js_string x end
         | x :: r => (match x with JNull => "" | _ => js_string x end) ++ "," ++ go r
         end) l
  | JObj _ => "[object Object]"
  end.

(** [v.includes(pat)]: defined on strings and arrays, a [TypeError]
    ([None]) on numbers, booleans and plain objects. *)
Definition js_includes (v : json) (pat : string) : option bool :=
  match v with
  | JStr s => Some (str_includes s pat)
  | JArr l => Some (existsb (fun x => match x with JStr s => String.eqb s pat | _ => false end) l)
  | _ => None
  end.

(* ------------------------------------------------------------------------- *)
(** ** Nostr events (src/lib/nostr.ts types [NostrEventTemplate], [NostrEvent]) *)

Record template : Type := mkTemplate {
  t_kind : Z;
  t_created_at : Z;
  t_content : string;
  t_tags : list (list string)
}.

Record nevent : Type := mkEvent {
  ev_id : string;
  ev_pubkey : string;
  ev_sig : string;
  ev_kind : Z;
  ev_created_at : Z;
  ev_tags : list (list string);
  ev_content : string
}.

(** A signer fills in identifier, public key and signature. *)
Record signature : Type := mkSig { sg_id : string; sg_pubkey : string; sg_sig : string }.

Definition signed (t : template) (g : signature) : nevent :=
  mkEvent (sg_id g) (sg_pubkey g) (sg_sig g) (t_kind t) (t_created_at t) (t_tags t) (t_content t).

(* ------------------------------------------------------------------------- *)
(** ** Message collector entries (src/lib/message-collector.ts interface) *)

Inductive centry : Type :=
| RelayRejection (relay : string) (msg : json)
| ConnectionError (relay : string) (msg : string).

Definition centry_relay (e : centry) : string :=
  match e with RelayRejection r _ => r | ConnectionError r _ => r end.

(* ------------------------------------------------------------------------- *)
(** ** One relay connection inside [publishToRelays]

    A relay's behaviour is the sequence of WebSocket events delivered to the
    handlers installed by the code.  [WsTimer] is the 5000 ms timer set in
    [onopen] firing. *)

Inductive ws_event : Type :=
| WsThrow (err : string)          (* [new WebSocket(relay)] throws *)
| WsOpen
| WsMessage (data : option json)  (* [None]: [JSON.parse] throws *)
| WsTimer
| WsError
| WsClose.

Record rstate : Type := mkR {
  r_opened : bool;            (* [onopen] ran: event sent, handlers and timer set *)
  r_closed : bool;            (* socket closing/closed: no more messages *)
  r_resolved : option bool;   (* settled value of [connectPromise] *)
  r_entries : list centry     (* what this connection added to the collector *)
}.

Definition rinit : rstate := mkR false false None [].

Definition resolve (b : bool) (s : rstate) : rstate :=
  match r_resolved s with
  | None => mkR (r_opened s) (r_closed s) (Some b) (r_entries s)
  | Some _ => s
  end.

Definition sock_close (s : rstate) : rstate :=
  mkR (r_opened s) true (r_resolved s) (r_entries s).

Definition add_entry (e : centry) (s : rstate) : rstate :=
  mkR (r_opened s) (r_closed s) (r_resolved s) (r_entries s ++ [e]).

(** The [OK ... false] branch once [errorMessage] is computed; [None] when
    [errorMessage.includes] throws (caught by the handler's [try]). *)
Definition on_rejection (relay : string) (em : json) (s : rstate) : option rstate :=
  let rated :=
    match js_includes em "rate-limit" with
    | None => None
    | Some true => Some true
    | Some false => js_includes em "noting too much"
    end in
  match rated with
  | None => None
  | Some true =>
      Some (sock_close (resolve false
        (add_entry (RelayRejection relay (JStr ("Rate limited: " ++ js_string em))) s)))
  | Some false =>
      Some (sock_close (resolve false (add_entry (RelayRejection relay em) s)))
  end.

(** [Array.isArray(data) && data[0] === "OK"] *)
Definition is_ok_frame (l : list json) : bool :=
  match nth_error l 0 with
  | Some (JStr t) => String.eqb t "OK"
  | _ => false
  end.

(** [socket.onmessage]: the [data.length >= 3 / >= 4] tests are the
    [nth_error] lookups succeeding. *)
Definition on_message (relay : string) (data : option json) (s : rstate) : rstate :=
  match data with
  | None => s
  | Some (JArr l) =>
      if is_ok_frame l then
        match nth_error l 2 with
        | Some (JBool true) => sock_close (resolve true s)
        | Some (JBool false) =>
            match nth_error l 3 with
            | Some d3 =>
                let em := if truthy d3 then d3 else JStr "Unknown relay error" in
                match on_rejection relay em s with
                | Some s' => s'
                | None => s
                end
            | None => s
            end
        | _ => s
        end
      else s
  | Some _ => s
  end.

Definition relay_step (relay : string) (s : rstate) (ev : ws_event) : rstate :=
  match ev with
  | WsThrow _ => s
  | WsOpen => if r_opened s then s else mkR true (r_closed s) (r_resolved s) (r_entries s)
  | WsMessage d => if r_opened s && negb (r_closed s) then on_message relay d s else s
  | WsTimer =>
      if r_opened s then
        sock_close (resolve false
          (add_entry (ConnectionError relay "Timeout waiting for response") s))
      else s
  | WsError =>
      resolve false (add_entry (ConnectionError relay "WebSocket error: [object Event]") s)
  | WsClose => sock_close (resolve false s)
  end.

(** Outcome of the per-relay task of [Promise.all]: [task_done] is [None]
    while [connectPromise] is pending, otherwise whether [successCount] was
    incremented. *)
Record task : Type := mkT { task_done : option bool; task_entries : list centry }.

Definition relay_task (relay : string) (tr : list ws_event) : task :=
  match tr with
  | WsThrow e :: _ =>
      mkT (Some false) [ConnectionError relay ("Connection failed: " ++ e)]
  | _ =>
      let s := fold_left (relay_step relay) tr rinit in
      mkT (r_resolved s) (r_entries s)
  end.

Definition task_success (t : task) : bool :=
  match task_done t with Some true => true | _ => false end.

Definition task_finished (t : task) : bool :=
  match task_done t with Some _ => true | None => false end.

(** [publishToRelays(event, relays, messageCollector)]: [net event r] is the
    behaviour of relay [r] once [["EVENT", event]] has been sent to it.  The first component is the promise's value
    ([None] when it never settles); the outer [try/catch] has nothing left to
    catch, as every relay task catches its own errors. *)
Definition publishToRelays (net : nevent -> string -> list ws_event) (event : nevent)
  (relays : list string) : option bool * list centry :=
  let tasks := map (fun r => relay_task r (net event r)) relays in
  ((if forallb task_finished tasks then Some (existsb task_success tasks) else None),
   flat_map task_entries tasks).

(** Runtime guarantee on a relay's event trace: either the constructor
    throws, or the socket opens and the 5 s timer fires afterwards, or the
    connection fails with an [error] event. *)
Definition is_timer (e : ws_event) : bool := match e with WsTimer => true | _ => false end.
Definition is_error (e : ws_event) : bool := match e with WsError => true | _ => false end.

Fixpoint timer_after_open (tr : list ws_event) : bool :=
  match tr with
  | [] => false
  | WsOpen :: r => existsb is_timer r
  | _ :: r => timer_after_open r
  end.

Definition ws_complete (tr : list ws_event) : bool :=
  match tr with
  | WsThrow _ :: _ => true
  | _ => timer_after_open tr || existsb is_error tr
  end.

(** The relay's connection is still waiting for an answer. *)
Definition waiting (s : rstate) : Prop :=
  r_opened s = true /\ r_closed s = false /\ r_resolved s = None.

(** An [OK] frame whose third element is [true]. *)
Definition ok_true_frame (l : list json) : Prop :=
  is_ok_frame l = true /\ nth_error l 2 = Some (JBool true).

(* ------------------------------------------------------------------------- *)
(** ** Data of the upload command *)

(** [FileEntry] of src/lib/files.ts: only the fields the command reads. *)
Record file : Type := mkFile {
  f_path : string;
  f_sha256 : option string;
  f_event : option nevent
}.

(** The project configuration ([.nsite/config.json]). [pd_profile] is the
    profile already rendered by [JSON.stringify]. *)
Record projectData : Type := mkProject {
  pd_relays : list string;
  pd_servers : list string;
  pd_bunkerPubkey : option string;
  pd_fallback : option string;
  pd_profile : option string;
  pd_publishRelayList : bool;
  pd_publishServerList : bool
}.

(** [{ relays: [], servers: [], publishRelayList: false, publishServerList: false }] *)
Definition default_project : projectData :=
  mkProject [] [] None None None false false.

(** [UploadCommandOptions] (verbose and concurrency only affect output and
    are passed through to [processUploads]). *)
Record options : Type := mkOptions {
  o_force : bool;
  o_purge : bool;
  o_servers : option string;
  o_relays : option string;
  o_privatekey : option string;
  o_bunker : option string;
  o_nbunksec : option string;
  o_fallback : option string;
  o_publishServerList : bool;
  o_publishRelayList : bool;
  o_publishProfile : bool;
  o_nonInteractive : bool
}.

(** A string-valued option used in a JavaScript condition: present and
    non-empty. *)
Definition present (o : option string) : option string :=
  match o with
  | Some v => if String.eqb v "" then None else Some v
  | None => None
  end.

(** [server.endsWith("/") ? server : `${server}/`] *)
Definition ensure_slash (server : string) : string :=
  if ends_with_slash server then server else server ++ "/".

(** Everything the command receives from outside: display mode, project
    files, signer back-ends, prompts, file system, relays, blob servers and
    the clock ([w_now k] is the [k]-th reading of [Date.now()]).  An
    [option] result [None] stands for the call throwing. *)
Record world : Type := mkWorld {
  w_displayInteractive : bool;
  w_readProjectFile : option projectData;
  w_setupProject : option (option projectData * option string);
  w_privateKeySigner : string -> option string;
  w_importFromNbunk : string -> option string;
  w_createNip46Client : string -> option string;
  w_storedNbunk : string -> option string;
  w_promptBunkerUrl : string;
  w_copyFallback : string -> bool;
  w_getLocalFiles : option (list file * list string);
  w_listRemoteFiles : list string -> string -> option (list file);
  w_head : string -> option bool;
  w_confirm : bool;
  w_loadFileData : file -> bool;
  w_processUploads : list file -> list string -> list string -> option (list bool);
  w_sign : template -> option signature;
  w_net : nevent -> string -> list ws_event;
  w_stringify : nevent -> string;
  w_btoa : string -> option string;
  w_delete : string -> string -> option bool;
  w_now : nat -> Z
}.

(** Observable actions of the command, in the order they happen. *)
Inductive action : Type :=
| AHead (url : string)
| ACopyFallback (name : string)
| ASign (t : template)
| APublish (ev : nevent) (relays : list string) (accepted : bool)
| AProcessUploads (files : list file)
| ADelete (url : string) (authorization : string).

Record st : Type := mkSt { s_reads : nat; s_log : list action }.

Definition st0 : st := mkSt O [].

(** Outcome of a computation: a value, [Deno.exit(code)], an exception, or
    an [await] that never returns. *)
Inductive res (A : Type) : Type :=
| Ok (a : A) (s : st)
| Exit (code : Z) (s : st)
| Throw (s : st)
| Hang (s : st).
Arguments Ok {A}. Arguments Exit {A}. Arguments Throw {A}. Arguments Hang {A}.

Definition M (A : Type) : Type := st -> res A.

Definition ret {A} (a : A) : M A := fun s => Ok a s.

Definition bind {A B} (m : M A) (k : A -> M B) : M B :=
  fun s => match m s with
           | Ok a s' => k a s'
           | Exit c s' => Exit c s'
           | Throw s' => Throw s'
           | Hang s' => Hang s'
           end.

Notation "x <- m ;; k" := (bind m (fun x => k)) (at level 61, m at next level, right associativity).
Notation "m ;; k" := (bind m (fun _ => k)) (at level 61, right associativity).

Definition res_state {A} (r : res A) : st :=
  match r with Ok _ s | Exit _ s | Throw s | Hang s => s end.

Definition emit (a : action) : M unit :=
  fun s => Ok tt (mkSt (s_reads s) (app (s_log s) [a])).

Definition exit {A} (code : Z) : M A := fun s => Exit code s.
Definition throw {A} : M A := fun s => Throw s.
Definition hang {A} : M A := fun s => Hang s.

(** [try { m } catch { h }] *)
Definition try_catch {A} (m : M A) (h : M A) : M A :=
  fun s => match m s with Throw s' => h s' | r => r end.

Definition lift_opt {A} (o : option A) : M A :=
  match o with Some a => ret a | None => throw end.

Section Orchestrator.
Variable w : world.

(** [Date.now()] *)
Definition now : M Z :=
  fun s => Ok (w_now w (s_reads s)) (mkSt (S (s_reads s)) (s_log s)).

(** [await signer.signEvent(t)] *)
Definition signEvent (t : template) : M nevent :=
  emit (ASign t) ;; g <- lift_opt (w_sign w t) ;; ret (signed t g).

(** [await publishToRelays(ev, relays, messageCollector)] *)
Definition publish (ev : nevent) (relays : list string) : M bool :=
  match fst (publishToRelays (w_net w) ev relays) with
  | None => hang
  | Some b => emit (APublish ev relays b) ;; ret b
  end.

(** Modelled from the spec: [compareFiles] of src/lib/files.ts, which is not
    in src/.  A local file is unchanged iff a remote entry has the same path
    and hash, to be uploaded otherwise; a remote entry is to be deleted iff
    no local file has its path.  Input order is kept. *)
Definition compareFiles (localFiles remoteFiles : list file) : list file * list file * list file :=
  let same f r := String.eqb (f_path f) (f_path r) &&
                   match f_sha256 f, f_sha256 r with
                   | Some a, Some b => String.eqb a b
                   | None, None => true
                   | _, _ => false
                   end in
  (filter (fun f => negb (existsb (same f) remoteFiles)) localFiles,
   filter (fun f => existsb (same f) remoteFiles) localFiles,
   filter (fun r => negb (existsb (fun f => String.eqb (f_path f) (f_path r)) localFiles)) remoteFiles).

(** Lines 92-101: the project context and the [!projectData] check. *)
Definition load_project (o : options) : M (projectData * option string) :=
  ctx <- (if o_nonInteractive o
          then ret (Some (match w_readProjectFile w with Some pd => pd | None => default_project end),
                    @None string)
          else lift_opt (w_setupProject w)) ;;
  match fst ctx with
  | None => exit 1
  | Some pd => ret (pd, snd ctx)
  end.

(** Prompt for a bunker URL and connect ([createNip46ClientFromUrl]). *)
Definition bunker_from_prompt : M string :=
  lift_opt (w_createNip46Client w (w_promptBunkerUrl w)).

(** Lines 103-186: choose the signer and learn the publisher's key. *)
Definition choose_signer (o : options) (ctx_pk : option string) (pd : projectData) : M string :=
  match present (o_privatekey o) with
  | Some k => lift_opt (w_privateKeySigner w k)
  | None =>
  match present (o_nbunksec o) with
  | Some nb => match w_importFromNbunk w nb with Some pk => ret pk | None => exit 1 end
  | None =>
  match present (o_bunker o) with
  | Some url => lift_opt (w_createNip46Client w url)
  | None =>
  match present ctx_pk with
  | Some k => lift_opt (w_privateKeySigner w k)
  | None =>
  match present (pd_bunkerPubkey pd) with
  | Some bpk =>
      match present (w_storedNbunk w bpk) with
      | Some nb => match w_importFromNbunk w nb with Some pk => ret pk | None => bunker_from_prompt end
      | None => bunker_from_prompt
      end
  | None => exit 1
  end end end end end.

(** Lines 224-240: copy the 404 fallback. *)
Definition copy_fallback (o : options) (pd : projectData) : M unit :=
  match present (o_fallback o), present (pd_fallback pd) with
  | Some f, _ | None, Some f =>
      emit (ACopyFallback f) ;; if w_copyFallback w f then ret tt else throw
  | None, None => ret tt
  end.

(** Lines 243-265: scan the local folder. *)
Definition scan_local : M (list file) :=
  lf <- lift_opt (w_getLocalFiles w) ;;
  let '(localFiles, ignored) := lf in
  match localFiles, ignored with
  | [], _ :: _ => exit 0
  | [], [] => exit 1
  | _, _ => ret localFiles
  end.

(** Lines 366-386: HEAD-probe [hash] on each server until one answers 2xx;
    a [fetch] that throws is skipped. *)
Fixpoint probe_servers (servers : list string) (hash : string) : M bool :=
  match servers with
  | [] => ret false
  | server :: rest =>
      let url := ensure_slash server ++ hash in
      emit (AHead url) ;;
      match w_head w url with
      | Some true => ret true
      | _ => probe_servers rest hash
      end
  end.

(** Lines 357-392: whether [fileComparisonMessage] ends up non-empty.  In an
    interactive display it is set as soon as a server has the file; else only
    when [--force] is absent. *)
Definition ambiguity_check (o : options) (servers : list string)
  (localFiles remoteFiles : list file) : M bool :=
  match remoteFiles, localFiles with
  | [], f :: _ =>
      match present (f_sha256 f) with
      | Some h =>
          alreadyExists <- probe_servers servers h ;;
          ret (alreadyExists && (w_displayInteractive w || negb (o_force o)))
      | None => ret false
      end
  | _, _ => ret false
  end.

(** Lines 414-477: the no-change / ambiguity gate.  Returns the final
    [toTransfer]. *)
Definition change_gate (o : options) (remoteFiles : list file) (fileComparisonMessage : bool)
  (toTransfer existing toDelete : list file) : M (list file) :=
  if ((length toTransfer =? 0)%nat && (negb (o_purge o) || (length toDelete =? 0)%nat))
     || ((length remoteFiles =? 0)%nat && fileComparisonMessage && negb (o_force o))
  then
    if negb (o_nonInteractive o) then
      (if w_confirm w then ret (app toTransfer existing) else exit 0)
    else if o_force o then ret (app toTransfer existing)
    else exit 0
  else ret toTransfer.

(** Lines 479-759: load and upload [toTransfer] (the summary is output only). *)
Definition upload_phase (toTransfer : list file) (servers relays : list string) : M unit :=
  match toTransfer with
  | [] => ret tt
  | _ =>
      let filesToUpload := filter (w_loadFileData w) toTransfer in
      match filesToUpload with
      | [] => exit 1
      | _ =>
          emit (AProcessUploads filesToUpload) ;;
          _ <- lift_opt (w_processUploads w filesToUpload servers relays) ;;
          ret tt
      end
  end.

(** Lines 799-836: authenticated DELETE of [hash] on every server. *)
Fixpoint delete_on_servers (servers : list string) (f : file) (hash : string) : M unit :=
  match servers with
  | [] => ret tt
  | server :: rest =>
      try_catch
        (let fullRequestUrl := ensure_slash server ++ hash in
         t0 <- now ;;
         t1 <- now ;;
         let deleteAuthTemplate :=
           mkTemplate 24242 (t0 / 1000) ("nsyte: delete file: " ++ hash ++ " | " ++ f_path f)
             [["t"; "delete"]; ["x"; hash]; ["expiration"; Z_to_dec (t1 / 1000 + 60 * 2)]] in
         deleteAuth <- signEvent deleteAuthTemplate ;;
         b64 <- lift_opt (w_btoa w (w_stringify w deleteAuth)) ;;
         let authHeaderValue := "Nostr " ++ b64 in
         emit (ADelete fullRequestUrl authHeaderValue) ;;
         _ <- lift_opt (w_delete w fullRequestUrl authHeaderValue) ;;
         ret tt)
        (ret tt) ;;
      delete_on_servers rest f hash
  end.

(** Lines 769-844: one iteration of the purge loop; [cf] is
    [(completed, failed)]. *)
Definition purge_file (servers relays : list string) (f : file) (cf : nat * nat) : M (nat * nat) :=
  let '(completed, failed) := cf in
  match f_event f, present (f_sha256 f) with
  | Some e, Some hash =>
      try_catch
        (t0 <- now ;;
         t1 <- now ;;
         let deletionEventTemplate :=
           mkTemplate 5 (t0 / 1000) ("nsyte: delete file event: " ++ f_path f)
             [["e"; ev_id e]; ["expiration"; Z_to_dec (t1 / 1000 + 60 * 2)]] in
         deletionEvent <- signEvent deletionEventTemplate ;;
         _ <- publish deletionEvent relays ;;
         delete_on_servers servers f hash ;;
         ret (S completed, failed))
        (ret (completed, S failed))
  | _, _ => ret (completed, S failed)
  end.

Fixpoint purge_loop (servers relays : list string) (files : list file) (cf : nat * nat)
  : M (nat * nat) :=
  match files with
  | [] => ret cf
  | f :: rest => cf' <- purge_file servers relays f cf ;; purge_loop servers relays rest cf'
  end.

(** Lines 853-955: optional relay list, server list and profile events;
    each is wrapped in its own [try/catch]. *)
Definition publish_metadata (o : options) (pd : projectData) (relays servers : list string) : M unit :=
  (if o_publishRelayList o then
     try_catch
       (t <- now ;;
        ev <- signEvent (mkTemplate 10002 (t / 1000) ""
                (app (map (fun url => ["r"; url]) relays) [["client"; "nsyte"]])) ;;
        _ <- publish ev relays ;; ret tt)
       (ret tt)
   else ret tt) ;;
  (if o_publishServerList o then
     try_catch
       (t <- now ;;
        ev <- signEvent (mkTemplate 10063 (t / 1000) ""
                (app (map (fun url => ["server"; url]) servers) [["client"; "nsyte"]])) ;;
        _ <- publish ev relays ;; ret tt)
       (ret tt)
   else ret tt) ;;
  match o_publishProfile o, pd_profile pd with
  | true, Some profileContent =>
      try_catch
        (t <- now ;;
         ev <- signEvent (mkTemplate 0 (t / 1000) profileContent [["client"; "nsyte"]]) ;;
         _ <- publish ev relays ;; ret tt)
        (ret tt)
  | _, _ => ret tt
  end.

(** [uploadCommand(fileOrFolder, options)]; the outer [catch] exits with 1. *)
Definition uploadCommand (o : options) : M unit :=
  try_catch
    (ctx <- load_project o ;;
     let '(pd, ctx_pk) := ctx in
     publisherPubkey <- choose_signer o ctx_pk pd ;;
     let relays := match present (o_relays o) with Some r => split_comma r | None => pd_relays pd end in
     let servers := match present (o_servers o) with Some v => split_comma v | None => pd_servers pd end in
     copy_fallback o pd ;;
     localFiles <- scan_local ;;
     remoteFiles <- lift_opt (w_listRemoteFiles w relays publisherPubkey) ;;
     fileComparisonMessage <- ambiguity_check o servers localFiles remoteFiles ;;
     let '(toTransfer0, existing, toDelete) := compareFiles localFiles remoteFiles in
     toTransfer <- change_gate o remoteFiles fileComparisonMessage toTransfer0 existing toDelete ;;
     upload_phase toTransfer servers relays ;;
     (if o_purge o && negb (length toDelete =? 0)%nat
      then _ <- purge_loop servers relays toDelete (O, O) ;; ret tt
      else ret tt) ;;
     publish_metadata o pd relays servers)
    (exit 1).

End Orchestrator.




(** The relay answered an [OK ... true] frame while its connection was still
    waiting for the outcome (opened, not closed, not yet settled). *)
Definition responded_ok_true (relay : string) (tr : list ws_event) : Prop :=
  (forall e rest, tr <> WsThrow e :: rest) /\
  exists pre l post, tr = (pre ++ WsMessage (Some (JArr l)) :: post)%list /\ ok_true_frame l /\
    waiting (fold_left (relay_step relay) pre rinit).

(** Every [ADelete] of a log comes right after an [ASign t] with [Q t url hdr]. *)
Definition preceded_by_sign (Q : template -> string -> string -> Prop) (l : list action) : Prop :=
  forall pre url hdr post, l = (pre ++ ADelete url hdr :: post)%list ->
    exists pre' t, pre = (pre' ++ [ASign t])%list /\ Q t url hdr.

(** The request [url] with header [hdr] deletes [hash] of file [f] from one
    of [servers], authorized by the signed kind-24242 record of template [t]
    whose clock readings are the [k]-th and [k+1]-th. *)
Definition delete_authorized (w : world) (servers : list string) (f : file) (hash : string)
  (t : template) (url hdr : string) : Prop :=
  exists server k g b64,
    In server servers /\ url = ensure_slash server ++ hash /\
    t = mkTemplate 24242 (w_now w k / 1000) ("nsyte: delete file: " ++ hash ++ " | " ++ f_path f)
          [["t"; "delete"]; ["x"; hash]; ["expiration"; Z_to_dec (w_now w (S k) / 1000 + 60 * 2)]] /\
    w_sign w t = Some g /\
    w_btoa w (w_stringify w (signed t g)) = Some b64 /\
    hdr = "Nostr " ++ b64.

(** In the actions [seg] logged while purging [f], each [ADelete] is preceded
    by the signing and the publication of [f]'s kind-5 deletion record. *)
Definition published_before_deletes (w : world) (relays : list string) (f : file)
  (seg : list action) : Prop :=
  forall pre url hdr post, seg = (pre ++ ADelete url hdr :: post)%list ->
    exists e t g b,
      f_event f = Some e /\ t_kind t = 5%Z /\ In ["e"; ev_id e] (t_tags t) /\
      w_sign w t = Some g /\ In (ASign t) pre /\ In (APublish (signed t g) relays b) pre.

(* ------------------------------------------------------------------------- *)
(** ** Upload summary (lines 623-640 and 661-678, 699-730)

    Characters are the UTF-16 code units of JavaScript strings, here those
    below 256. *)

(** A [processUploads] result: only the fields the summary reads;
    [ur_serverResults] is [Object.entries(result.serverResults)] with each
    entry's [success]. *)
Record upload_result : Type := mkResult {
  ur_path : string;
  ur_success : bool;
  ur_error : option string;
  ur_serverResults : list (string * bool)
}.

(** [Map.prototype.get] on a map kept as its entries in insertion order. *)
Fixpoint map_get {V} (k : string) (m : list (string * V)) : option V :=
  match m with
  | [] => None
  | (k', v) :: r => if String.eqb k' k then Some v else map_get k r
  end.

(** [Map.prototype.set]: an existing key keeps its position. *)
Fixpoint map_set {V} (k : string) (v : V) (m : list (string * V)) : list (string * V) :=
  match m with
  | [] => [(k, v)]
  | (k', v') :: r => if String.eqb k' k then (k', v) :: r else (k', v') :: map_set k v r
  end.

(** Lines 623-640, one [[server, status]] entry of a successful result:
    [stats.total++] and, on success, [stats.success++], for a server the
    map has. *)
Definition tally_entry (m : list (string * (nat * nat))) (entry : string * bool)
  : list (string * (nat * nat)) :=
  let (server, ok) := entry in
  match map_get server m with
  | Some (sc, tot) => map_set server (if ok then S sc else sc, S tot) m
  | None => m
  end.

Definition tally_result (m : list (string * (nat * nat))) (result : upload_result)
  : list (string * (nat * nat)) :=
  if ur_success result then fold_left tally_entry (ur_serverResults result) m else m.

Definition tally_init (servers : list string) : list (string * (nat * nat)) :=
  fold_left (fun m server => map_set server (O, O) m) servers [].

(** Lines 623-640: [serverResults], a map from server to
    [{success, total}], here [(success, total)]. *)
Definition server_tally (servers : list string) (results : list upload_result)
  : list (string * (nat * nat)) :=
  fold_left tally_result results (tally_init servers).

(** [errorMessage.split('\n')[0]] *)
Fixpoint first_line (s : string) : string :=
  match s with
  | EmptyString => ""
  | String c s' => if Ascii.eqb c (ascii_of_nat 10) then "" else String c (first_line s')
  end.

Fixpoint sdrop (n : nat) (s : string) : string :=
  match n, s with
  | O, _ => s
  | S _, EmptyString => EmptyString
  | S n', String _ s' => sdrop n' s'
  end.

(** The longest run of characters other than ['<'], and what follows. *)
Fixpoint run_not_lt (s : string) : string * string :=
  match s with
  | EmptyString => ("", "")
  | String c s' =>
      if Ascii.eqb c "<" then ("", s)
      else let (r, rest) := run_not_lt s' in (String c r, rest)
  end.

(** [/<pre>([^<]+)<\/pre>/] matching at the start of [s]: its group.  The
    greedy [[^<]+] can only succeed with its longest run, as the character
    after a shorter one is not ['<']. *)
Definition pre_match_at (s : string) : option string :=
  if String.prefix "<pre>" s then
    let (r, rest) := run_not_lt (sdrop 5 s) in
    if negb (String.eqb r "") && String.prefix "</pre>" rest then Some r else None
  else None.

(** [s.match(/<pre>([^<]+)<\/pre>/)[1]]: the leftmost match. *)
Fixpoint pre_match (s : string) : option string :=
  match s with
  | EmptyString => None
  | String _ s' => match pre_match_at s with Some r => Some r | None => pre_match s' end
  end.

(** JavaScript's [\s] on code units below 256. *)
Definition js_space (c : ascii) : bool :=
  let n := nat_of_ascii c in
  ((9 <=? n)%nat && (n <=? 13)%nat) || (n =? 32)%nat || (n =? 160)%nat.

(** [[^\/:\s]] *)
Definition host_char (c : ascii) : bool :=
  negb (Ascii.eqb c "/" || Ascii.eqb c ":" || js_space c).

Fixpoint host_run (s : string) : string :=
  match s with
  | EmptyString => ""
  | String c s' => if host_char c then String c (host_run s') else ""
  end.

(** [/https:\/\/[^\/:\s]+/] matching at the start of [s]. *)
Definition https_match_at (s : string) : option string :=
  if String.prefix "https://" s then
    let r := host_run (sdrop 8 s) in
    if String.eqb r "" then None else Some ("https://" ++ r)
  else None.

(** [s.match(/https:\/\/[^\/:\s]+/)[0]]: the leftmost match. *)
Fixpoint https_match (s : string) : option string :=
  match s with
  | EmptyString => None
  | String _ s' => match https_match_at s with Some m => Some m | None => https_match s' end
  end.

(** Lines 700-724: the message a failed upload is reported under. *)
Definition normalize_error (error : option string) : string :=
  let m0 := match error with
            | Some e => if String.eqb e "" then "Unknown error" else e
            | None => "Unknown error"
            end in
  let m1 := if str_includes m0 "<!DOCTYPE html>" then
              match pre_match m0 with
              | Some g => g
              | None =>
                  let l := first_line m0 in
                  if str_includes l "<!DOCTYPE html>" then "Server returned HTML error page" else l
              end
            else m0 in
  let m2 := if str_includes m1 "https://" then
              match https_match m1 with
              | Some server => "Failed to upload to " ++ server
              | None => m1
              end
            else m1 in
  if str_includes m2 "Failed to upload to any server" then "Failed to upload to any server" else m2.

(** Lines 698-728, one failed result: its path appended to the paths of
    its message. *)
Definition group_add (g : list (string * list string)) (result : upload_result)
  : list (string * list string) :=
  let m := normalize_error (ur_error result) in
  let paths := match map_get m g with Some ps => ps | None => [] end in
  map_set m (paths ++ [ur_path result])%list g.

(** Lines 697-730: [errorGroups], from message to the paths of the failed
    files. *)
Definition error_groups (results : list upload_result) : list (string * list string) :=
  fold_left group_add (filter (fun r => negb (ur_success r)) results) [].

(** The templates a log shows signed, and the URLs it shows DELETEd. *)
Definition signed_templates (l : list action) : list template :=
  flat_map (fun a => match a with ASign t => [t] | _ => [] end) l.

Definition delete_urls (l : list action) : list string :=
  flat_map (fun a => match a with ADelete u _ => [u] | _ => [] end) l.

(** The relay's connection has settled and left an entry under its URL. *)
Definition settled_with_entry (relay : string) (s : rstate) : Prop :=
  r_resolved s <> None /\ exists e, In e (r_entries s) /\ centry_relay e = relay.

(** What the actions [seg] logged while purging [f] satisfy: the deletion
    record comes first, and every DELETE is authorized for [f]'s hash. *)
Definition file_seg_ok (w : world) (servers relays : list string) (f : file)
  (seg : list action) : Prop :=
  published_before_deletes w relays f seg /\
  preceded_by_sign (fun t url hdr => exists hash, present (f_sha256 f) = Some hash /\
                                       delete_authorized w servers f hash t url hdr) seg.

(** A sample environment: every relay accepts, every server answers, every
    upload succeeds or fails as [uploads_ok] says, and the clock starts one
    millisecond before a second boundary. *)
Definition demo_world (display_interactive confirm : bool) (project : option projectData)
  (local : option (list file * list string)) (remote : list file) (head uploads_ok : bool) : world :=
  mkWorld display_interactive project (Some (project, None))
    (fun _ => Some "pk") (fun _ => Some "pk") (fun _ => Some "pk") (fun _ => None) ""
    (fun _ => true) local (fun _ _ => Some remote) (fun _ => Some head) confirm
    (fun _ => true) (fun fs _ _ => Some (map (fun _ => uploads_ok) fs))
    (fun t => Some (mkSig ("id" ++ Z_to_dec (t_kind t)) "pk" "sig"))
    (fun ev _ => [WsOpen; WsMessage (Some (JArr [JStr "OK"; JStr (ev_id ev); JBool true; JStr ""]));
                  WsTimer])
    ev_id (fun s => Some s) (fun _ _ => Some true)
    (fun k => (1700000000999 + Z.of_nat k)%Z).

Definition demo_options (force purge nonInteractive : bool) : options :=
  mkOptions force purge (Some "https://s1") (Some "wss://r1") (Some "nsec1") None None None
    false false false nonInteractive.

Definition demo_file (path hash id : string) : file :=
  mkFile path (Some hash) (Some (mkEvent id "pk" "sig" 34128 0 [] "")).

(* ========================================================================= *)
(** * Proofs *)

Module RelayFacts.
Local Open Scope list_scope.

Ltac split_matches :=
  repeat match goal with
  | |- context [match ?x with _ => _ end] => destruct x eqn:?
  end.

Lemma resolve_keeps r b s : r_resolved s = Some r -> r_resolved (resolve b s) = Some r.
Proof. unfold resolve; intros H; rewrite H; exact H. Qed.

Lemma on_rejection_keeps relay em s s' r :
  r_resolved s = Some r -> on_rejection relay em s = Some s' -> r_resolved s' = Some r.
Proof.
  unfold on_rejection; intros H E; revert E; split_matches; intros E;
  inversion E; subst; unfold resolve, sock_close, add_entry; simpl; rewrite H; reflexivity.
Qed.

Lemma step_resolved_stable relay s ev r :
  r_resolved s = Some r -> r_resolved (relay_step relay s ev) = Some r.
Proof.
  intros H; destruct ev; simpl;
    unfold on_message, resolve, sock_close, add_entry; split_matches; simpl in *;
    try congruence; eapply on_rejection_keeps; eauto.
Qed.

Lemma fold_resolved_stable relay tr s r :
  r_resolved s = Some r -> r_resolved (fold_left (relay_step relay) tr s) = Some r.
Proof.
  revert s; induction tr as [|ev tr IH]; simpl; auto.
  intros s H; apply IH, step_resolved_stable, H.
Qed.

Lemma on_rejection_entries relay em s s' :
  on_rejection relay em s = Some s' -> exists l, r_entries s' = r_entries s ++ l.
Proof.
  unfold on_rejection; intros E; revert E; split_matches; intros E;
  inversion E; subst; unfold resolve, sock_close, add_entry; simpl; split_matches; simpl;
  eexists; reflexivity.
Qed.

Lemma step_entries_prefix relay s ev :
  exists l, r_entries (relay_step relay s ev) = r_entries s ++ l.
Proof.
  destruct ev; simpl;
    unfold on_message, resolve, sock_close, add_entry; split_matches; simpl in *;
    try (exists []; rewrite app_nil_r; reflexivity); try (eexists; reflexivity);
    eapply on_rejection_entries; eauto.
Qed.

Lemma fold_entries_prefix relay tr s :
  exists l, r_entries (fold_left (relay_step relay) tr s) = r_entries s ++ l.
Proof.
  revert s; induction tr as [|ev tr IH]; simpl; intros s.
  - exists []; rewrite app_nil_r; reflexivity.
  - destruct (step_entries_prefix relay s ev) as [l1 E1].
    destruct (IH (relay_step relay s ev)) as [l2 E2].
    exists (l1 ++ l2); rewrite E2, E1, app_assoc; reflexivity.
Qed.

Lemma fold_keeps_entry relay tr s e :
  In e (r_entries s) -> In e (r_entries (fold_left (relay_step relay) tr s)).
Proof.
  intros H; destruct (fold_entries_prefix relay tr s) as [l E]; rewrite E.
  apply in_or_app; left; exact H.
Qed.

Lemma on_rejection_opened relay em s s' :
  on_rejection relay em s = Some s' -> r_opened s' = r_opened s.
Proof.
  unfold on_rejection; intros E; revert E; split_matches; intros E;
  inversion E; subst; unfold resolve, sock_close, add_entry; simpl; split_matches; reflexivity.
Qed.

Lemma step_opened_mono relay s ev :
  r_opened s = true -> r_opened (relay_step relay s ev) = true.
Proof.
  intros H; destruct ev; simpl;
    unfold on_message, resolve, sock_close, add_entry; split_matches; simpl in *;
    try congruence; erewrite on_rejection_opened; eauto.
Qed.


Lemma settled_with_entry_fold relay tr s :
  settled_with_entry relay s -> settled_with_entry relay (fold_left (relay_step relay) tr s).
Proof.
  intros [H [e [He Hr]]]; split.
  - destruct (r_resolved s) as [b|] eqn:E; [|congruence].
    rewrite (fold_resolved_stable relay tr s b E); discriminate.
  - exists e; split; [apply fold_keeps_entry|]; assumption.
Qed.

Lemma add_resolve_settled relay e s :
  centry_relay e = relay -> settled_with_entry relay (resolve false (add_entry e s)).
Proof.
  intros Hr; unfold resolve, add_entry; simpl; split_matches; simpl; split;
    try discriminate; exists e; split; auto; apply in_or_app; right; left; reflexivity.
Qed.

Lemma error_settles relay tr s :
  existsb is_error tr = true -> settled_with_entry relay (fold_left (relay_step relay) tr s).
Proof.
  revert s; induction tr as [|ev tr IH]; simpl; [discriminate|].
  intros s H; destruct ev; simpl in H; auto.
  apply settled_with_entry_fold, add_resolve_settled; reflexivity.
Qed.

Lemma timer_settles relay tr s :
  r_opened s = true -> existsb is_timer tr = true ->
  settled_with_entry relay (fold_left (relay_step relay) tr s).
Proof.
  revert s; induction tr as [|ev tr IH]; simpl; [discriminate|].
  intros s Ho H; destruct ev; simpl in H;
    try (apply IH; [apply step_opened_mono|]; assumption).
  simpl; rewrite Ho.
  apply settled_with_entry_fold.
  assert (K : settled_with_entry relay (resolve false
            (add_entry (ConnectionError relay "Timeout waiting for response") s)))
    by (apply add_resolve_settled; reflexivity).
  destruct K as [K1 K2]; split; exact K1 || exact K2.
Qed.

Lemma timer_after_open_settles relay tr s :
  timer_after_open tr = true -> settled_with_entry relay (fold_left (relay_step relay) tr s).
Proof.
  revert s; induction tr as [|ev tr IH]; simpl; [discriminate|].
  intros s H; destruct ev; auto.
  apply timer_settles; auto.
  simpl; destruct (r_opened s) eqn:E; simpl; auto.
Qed.

Lemma complete_task relay tr :
  ws_complete tr = true ->
  task_finished (relay_task relay tr) = true /\
  exists e, In e (task_entries (relay_task relay tr)) /\ centry_relay e = relay.
Proof.
  intros H.
  assert (G : forall tr', timer_after_open tr' || existsb is_error tr' = true ->
            task_finished (mkT (r_resolved (fold_left (relay_step relay) tr' rinit))
                               (r_entries (fold_left (relay_step relay) tr' rinit))) = true /\
            exists e, In e (r_entries (fold_left (relay_step relay) tr' rinit)) /\ centry_relay e = relay).
  { intros tr' H'; apply orb_true_iff in H'.
    assert (S : settled_with_entry relay (fold_left (relay_step relay) tr' rinit))
      by (destruct H'; [apply timer_after_open_settles | apply error_settles]; assumption).
    destruct S as [S1 S2]; split; [|exact S2].
    unfold task_finished; simpl; destruct (r_resolved _); [reflexivity|congruence]. }
  destruct tr as [|ev tr]; [discriminate|].
  destruct ev as [err| | | | |];
    [split; [reflexivity|]; eexists; split; [left; reflexivity|reflexivity]|..];
    apply G; exact H.
Qed.

Lemma on_rejection_sets_false relay em s s' :
  r_resolved s = None -> on_rejection relay em s = Some s' -> r_resolved s' = Some false.
Proof.
  unfold on_rejection; intros H E; revert E; split_matches; intros E;
  inversion E; subst; unfold resolve, sock_close, add_entry; simpl; rewrite H; reflexivity.
Qed.

Lemma step_sets_true relay s ev :
  r_resolved s = None -> r_resolved (relay_step relay s ev) = Some true ->
  exists l, ev = WsMessage (Some (JArr l)) /\ ok_true_frame l /\ waiting s.
Proof.
  intros H E; destruct ev; simpl in E.
  - congruence.
  - destruct (r_opened s); simpl in E; congruence.
  - destruct (r_opened s) eqn:Ho; simpl in E; [|congruence].
    destruct (r_closed s) eqn:Hc; simpl in E; [congruence|].
    unfold on_message in E.
    destruct data as [[| | | |l|]|]; try congruence.
    destruct (is_ok_frame l) eqn:Hok; [|congruence].
    destruct (nth_error l 2) as [[| | | | |]|] eqn:H2; try congruence.
    destruct b.
    + exists l; repeat split; auto.
    + destruct (nth_error l 3) as [d3|]; [|congruence].
      destruct (on_rejection relay _ s) as [s'|] eqn:R; [|congruence].
      rewrite (on_rejection_sets_false _ _ _ _ H R) in E; discriminate.
  - destruct (r_opened s); simpl in E; [|congruence].
    unfold resolve, add_entry in E; simpl in E; rewrite H in E; discriminate.
  - unfold resolve, add_entry in E; simpl in E; rewrite H in E; discriminate.
  - unfold resolve in E; rewrite H in E; discriminate.
Qed.

Lemma fold_reaches_true relay tr s :
  r_resolved s = None -> r_resolved (fold_left (relay_step relay) tr s) = Some true ->
  exists pre l post, tr = (pre ++ WsMessage (Some (JArr l)) :: post)%list /\ ok_true_frame l /\
    waiting (fold_left (relay_step relay) pre s).
Proof.
  revert s; induction tr as [|ev tr IH]; simpl; intros s H E; [congruence|].
  destruct (r_resolved (relay_step relay s ev)) as [b|] eqn:Hs.
  - rewrite (fold_resolved_stable relay tr _ b Hs) in E; inversion E; subst.
    destruct (step_sets_true relay s ev H Hs) as [l [-> [Hl Hw]]].
    exists [], l, tr; simpl; auto.
  - destruct (IH _ Hs E) as [pre [l [post [-> [Hl Hw]]]]].
    exists (ev :: pre), l, post; simpl; auto.
Qed.

Lemma waiting_ok_true relay s l :
  waiting s -> ok_true_frame l -> r_resolved (relay_step relay s (WsMessage (Some (JArr l)))) = Some true.
Proof.
  intros [Ho [Hc Hr]] [Hok H2]; unfold relay_step; rewrite Ho, Hc; cbn [andb negb].
  unfold on_message; rewrite Hok, H2; unfold resolve; rewrite Hr; reflexivity.
Qed.

Lemma task_success_iff relay tr :
  task_success (relay_task relay tr) = true <->
  (forall e rest, tr <> WsThrow e :: rest) /\
  exists pre l post, tr = (pre ++ WsMessage (Some (JArr l)) :: post)%list /\ ok_true_frame l /\
    waiting (fold_left (relay_step relay) pre rinit).
Proof.
  assert (Fold : forall tr', (forall e rest, tr' <> WsThrow e :: rest) ->
            relay_task relay tr' = mkT (r_resolved (fold_left (relay_step relay) tr' rinit))
                                      (r_entries (fold_left (relay_step relay) tr' rinit))).
  { intros [|[] ?] N; try reflexivity. exfalso; eapply N; reflexivity. }
  split.
  - intros H.
    assert (N : forall e rest, tr <> WsThrow e :: rest)
      by (intros e rest ->; discriminate H).
    split; [exact N|].
    rewrite (Fold tr N) in H; unfold task_success in H; simpl in H.
    destruct (r_resolved _) as [[|]|] eqn:E; try discriminate.
    apply fold_reaches_true; [reflexivity|exact E].
  - intros [N [pre [l [post [-> [Hl Hw]]]]]].
    rewrite (Fold _ N); unfold task_success; cbn [task_done].
    rewrite fold_left_app; cbn [fold_left].
    rewrite (fold_resolved_stable relay post _ true (waiting_ok_true relay _ l Hw Hl)).
    reflexivity.
Qed.

End RelayFacts.

Module Publish.
Import RelayFacts.
Local Open Scope list_scope.

Lemma publish_fst (net : nevent -> string -> list ws_event) ev relays :
  fst (publishToRelays net ev relays) =
  (let tasks := map (fun r => relay_task r (net ev r)) relays in
   if forallb task_finished tasks then Some (existsb task_success tasks) else None).
Proof. reflexivity. Qed.

Lemma all_finished (net : nevent -> string -> list ws_event) ev relays :
  (forall r, In r relays -> ws_complete (net ev r) = true) ->
  forallb task_finished (map (fun r => relay_task r (net ev r)) relays) = true.
Proof.
  intros Hc; apply forallb_forall; intros t Ht.
  apply in_map_iff in Ht as [r [<- Hr]].
  apply (complete_task r _ (Hc r Hr)).
Qed.

Lemma existsb_tasks (net : nevent -> string -> list ws_event) ev relays :
  existsb task_success (map (fun r => relay_task r (net ev r)) relays) = true <->
  exists r, In r relays /\ task_success (relay_task r (net ev r)) = true.
Proof.
  rewrite existsb_exists; split.
  - intros [t [Ht Hs]]; apply in_map_iff in Ht as [r [<- Hr]]; eauto.
  - intros [r [Hr Hs]]; exists (relay_task r (net ev r)); split; auto.
    apply in_map_iff; eauto.
Qed.

(** ** C1: at-least-one-success publish. *)

(** Claim C1: when every relay connection runs to completion,
    [publishToRelays] (one connection per relay, no retry) settles to [true]
    exactly when some relay answered an [OK] frame whose third element is
    [true] while its connection was waiting for the outcome, to [false]
    exactly when none did, and every relay whose outcome is not an
    acceptance has an entry keyed by its URL in the message collector. *)
Theorem publish_true_iff_some_accepted net ev relays
  (Hc : forall r, In r relays -> ws_complete (net ev r) = true) :
  (fst (publishToRelays net ev relays) = Some true <->
     exists r, In r relays /\ responded_ok_true r (net ev r)) /\
  (fst (publishToRelays net ev relays) = Some false <->
     forall r, In r relays -> ~ responded_ok_true r (net ev r)) /\
  (forall r, In r relays -> ~ responded_ok_true r (net ev r) ->
     exists e, In e (snd (publishToRelays net ev relays)) /\ centry_relay e = r).
Proof.
  rewrite publish_fst; cbv zeta; rewrite (all_finished net ev relays Hc).
  split; [|split].
  - split.
    + intros H; inversion H as [H1].
      apply existsb_tasks in H1 as [r [Hr Hs]].
      exists r; split; auto; apply task_success_iff; exact Hs.
    + intros [r [Hr Hs]]; f_equal; apply existsb_tasks.
      exists r; split; auto; apply task_success_iff; exact Hs.
  - split.
    + intros H r Hr Hs; inversion H as [H1].
      assert (T : existsb task_success (map (fun r => relay_task r (net ev r)) relays) = true)
        by (apply existsb_tasks; exists r; split; auto; apply task_success_iff; exact Hs).
      congruence.
    + intros H; f_equal.
      destruct (existsb task_success _) eqn:E; auto.
      apply existsb_tasks in E as [r [Hr Hs]].
      exfalso; apply (H r Hr); apply task_success_iff; exact Hs.
  - intros r Hr _.
    destruct (complete_task r _ (Hc r Hr)) as [_ [e [He Her]]].
    exists e; split; auto.
    unfold publishToRelays; simpl.
    apply in_flat_map; exists (relay_task r (net ev r)); split; auto.
    apply in_map_iff; eauto.
Qed.

Lemma on_rejection_str relay t s : exists s', on_rejection relay (JStr t) s = Some s'.
Proof.
  unfold on_rejection, js_includes.
  destruct (str_includes t "rate-limit"), (str_includes t "noting too much"); eexists; reflexivity.
Qed.

Lemma opened_state_ok relay :
  relay_step relay rinit WsOpen = mkR true false None [].
Proof. reflexivity. Qed.

(** After the socket opens, an [["OK", x, false, m, ...]] frame with a string
    [m] is processed by [on_rejection] on the message [em] chosen by the
    code. *)
Lemma ok_false_step relay x m more :
  relay_step relay (mkR true false None []) (WsMessage (Some (JArr (JStr "OK" :: x :: JBool false :: JStr m :: more)))) =
  match on_rejection relay (if truthy (JStr m) then JStr m else JStr "Unknown relay error") (mkR true false None []) with
  | Some s' => s'
  | None => mkR true false None []
  end.
Proof. reflexivity. Qed.

(** ** C4: the identifier of an [OK] frame is not compared with the event's. *)

(** An [OK] frame right after the socket opens settles the relay's outcome
    whatever record identifier [x] it carries. *)
Lemma ok_frame_after_open relay x more rest :
  task_success (relay_task relay
     (WsOpen :: WsMessage (Some (JArr (JStr "OK" :: x :: JBool true :: more))) :: rest)) = true /\
  (forall m, task_done (relay_task relay
     (WsOpen :: WsMessage (Some (JArr (JStr "OK" :: x :: JBool false :: JStr m :: more))) :: rest))
     = Some false).
Proof.
  split.
  - unfold task_success, relay_task; cbn [task_done fold_left].
    rewrite opened_state_ok.
    rewrite (fold_resolved_stable relay rest
      (relay_step relay (mkR true false None [])
         (WsMessage (Some (JArr (JStr "OK" :: x :: JBool true :: more))))) true eq_refl).
    reflexivity.
  - intros m; unfold relay_task; cbn [task_done fold_left].
    rewrite opened_state_ok, ok_false_step.
    destruct (on_rejection_str relay (if truthy (JStr m) then m else "Unknown relay error")
                (mkR true false None [])) as [s' E].
    assert (E' : on_rejection relay (if truthy (JStr m) then JStr m else JStr "Unknown relay error")
                   (mkR true false None []) = Some s')
      by (destruct (truthy (JStr m)); exact E).
    rewrite E'.
    apply fold_resolved_stable, (on_rejection_sets_false relay _ (mkR true false None []) s' eq_refl E').
Qed.

(** Claim C4 (as amended): the record identifier of an [OK] frame is not
    compared with the event's.  While the connection is open and still
    waiting, an [["OK", x, true, ...]] frame settles the relay's outcome as
    accepted, and an [["OK", x, false, m, ...]] frame settles it as rejected
    when [m] is a string, an array or a falsy value, whatever [x] is; once
    settled, the frames and events that follow do not change the outcome.
    A three-element [["OK", x, false]] frame, and an [["OK", x, false, m, ...]]
    frame whose [m] is a truthy number, boolean or object (its [includes]
    call throws inside the handler's [try]), change nothing. *)
Theorem first_settling_ok_frame_decides relay pre x more rest :
  waiting (fold_left (relay_step relay) (WsOpen :: pre) rinit) ->
  task_done (relay_task relay
    (WsOpen :: app pre (WsMessage (Some (JArr (JStr "OK" :: x :: JBool true :: more))) :: rest)))
    = Some true /\
  (forall d3, match d3 with JStr _ | JArr _ => True | _ => truthy d3 = false end ->
     task_done (relay_task relay
       (WsOpen :: app pre (WsMessage (Some (JArr (JStr "OK" :: x :: JBool false :: d3 :: more))) :: rest)))
       = Some false) /\
  (forall s, relay_step relay s (WsMessage (Some (JArr [JStr "OK"; x; JBool false]))) = s) /\
  (forall s d3, match d3 with JNum _ | JBool _ | JObj _ => truthy d3 = true | _ => False end ->
     relay_step relay s (WsMessage (Some (JArr (JStr "OK" :: x :: JBool false :: d3 :: more)))) = s).
Proof.
  intros W.
  assert (Hd : forall ev,
    task_done (relay_task relay (WsOpen :: app pre (ev :: rest))) =
    r_resolved (fold_left (relay_step relay) rest
                  (relay_step relay (fold_left (relay_step relay) (WsOpen :: pre) rinit) ev))).
  { intros ev; unfold relay_task; cbn [task_done].
    change (WsOpen :: app pre (ev :: rest)) with (app (WsOpen :: pre) (ev :: rest)).
    rewrite fold_left_app; reflexivity. }
  set (s0 := fold_left (relay_step relay) (WsOpen :: pre) rinit) in *; clearbody s0.
  destruct W as [O [C R]].
  split; [|split; [|split]].
  - rewrite Hd.
    apply fold_resolved_stable.
    unfold relay_step; rewrite O, C; cbn.
    unfold resolve; rewrite R; reflexivity.
  - intros d3 Hd3; rewrite Hd.
    assert (Ex : exists s', on_rejection relay (if truthy d3 then d3 else JStr "Unknown relay error") s0
                            = Some s').
    { destruct d3 as [| b | n | t | l | kv]; cbn [truthy] in *.
      - apply on_rejection_str.
      - subst b; apply on_rejection_str.
      - rewrite Hd3; apply on_rejection_str.
      - destruct (negb (String.eqb t "")); apply on_rejection_str.
      - unfold on_rejection, js_includes.
        repeat match goal with |- context [existsb ?f l] => destruct (existsb f l) end;
          eexists; reflexivity.
      - discriminate Hd3. }
    destruct Ex as [s' E].
    apply fold_resolved_stable.
    unfold relay_step; rewrite O, C; cbn [andb negb on_message is_ok_frame nth_error].
    try replace (String.eqb "OK" "OK") with true by reflexivity.
    rewrite E; exact (on_rejection_sets_false relay _ s0 s' R E).
  - intros s; unfold relay_step; destruct (r_opened s && negb (r_closed s)); reflexivity.
  - intros s d3 Hd3; unfold relay_step; destruct (r_opened s && negb (r_closed s)); [|reflexivity].
    destruct d3 as [| b | n | t | l | kv]; try contradiction; cbn [on_message is_ok_frame nth_error];
      try replace (String.eqb "OK" "OK") with true by reflexivity; cbn [truthy] in *; try rewrite Hd3;
      reflexivity.
Qed.

(** Counterexample to claim C4: publishing the record with identifier "aa",
    a relay's [["OK", "bb", true, ""]] frame (another record's identifier)
    decides the publish as accepted. *)
Lemma foreign_ok_decides_publish :
  ev_id (mkEvent "aa" "pk" "sig" 34128 0 [] "") <> "bb" /\
  fst (publishToRelays
         (fun _ _ => [WsOpen; WsMessage (Some (JArr [JStr "OK"; JStr "bb"; JBool true; JStr ""])); WsTimer])
         (mkEvent "aa" "pk" "sig" 34128 0 [] "") ["wss://relay.example"]) = Some true.
Proof. split; [discriminate | reflexivity]. Qed.

(** A three-element [OK ... false] frame and one whose reason is a number
    are ignored; the [OK ... true] frame that follows decides. *)
Lemma first_settling_ok_frame_decides_witness :
  waiting (fold_left (relay_step "wss://r1")
    (WsOpen :: [WsMessage (Some (JArr [JStr "OK"; JStr "bb"; JBool false]));
                WsMessage (Some (JArr [JStr "OK"; JStr "bb"; JBool false; JNum 5]))]) rinit) /\
  task_done (relay_task "wss://r1"
    (WsOpen :: app [WsMessage (Some (JArr [JStr "OK"; JStr "bb"; JBool false]));
                    WsMessage (Some (JArr [JStr "OK"; JStr "bb"; JBool false; JNum 5]))]
                   (WsMessage (Some (JArr [JStr "OK"; JStr "bb"; JBool true])) :: [WsTimer])))
    = Some true.
Proof.
  assert (W : waiting (fold_left (relay_step "wss://r1")
    (WsOpen :: [WsMessage (Some (JArr [JStr "OK"; JStr "bb"; JBool false]));
                WsMessage (Some (JArr [JStr "OK"; JStr "bb"; JBool false; JNum 5]))]) rinit))
    by (vm_compute; split; [reflexivity|split; reflexivity]).
  split; [exact W|].
  exact (proj1 (first_settling_ok_frame_decides "wss://r1" _ (JStr "bb") [] [WsTimer] W)).
Defined.

(** ** C5: classification of [OK ... false] answers. *)

(** Claim C5 (as amended): when a relay's first answer is
    [["OK", x, false, m, ...]] with a string [m], the relay's outcome is a
    rejection and the collector records against that relay the reason
    "Unknown relay error" if [m] is empty, "Rate limited: m" if [m] contains
    "rate-limit" or "noting too much", and [m] otherwise. *)
Theorem ok_false_classification relay x m more rest :
  let t := relay_task relay
     (WsOpen :: WsMessage (Some (JArr (JStr "OK" :: x :: JBool false :: JStr m :: more))) :: rest) in
  task_done t = Some false /\
  In (RelayRejection relay (JStr
        (if String.eqb m "" then "Unknown relay error"
         else if str_includes m "rate-limit" || str_includes m "noting too much"
              then "Rate limited: " ++ m else m)))
     (task_entries t).
Proof.
  cbv zeta; split; [apply ok_frame_after_open|].
  unfold relay_task; cbn [task_entries fold_left].
  rewrite opened_state_ok, ok_false_step.
  apply fold_keeps_entry.
  unfold truthy.
  destruct (String.eqb m "") eqn:Em; cbn [negb].
  - unfold on_rejection; simpl; left; reflexivity.
  - unfold on_rejection, js_includes.
    destruct (str_includes m "rate-limit"); simpl;
      [left; reflexivity|].
    destruct (str_includes m "noting too much"); simpl; left; reflexivity.
Qed.

(** Counterexample to claim C5: the answer [["OK", "aa", false, ""]] is
    recorded with the reason "Unknown relay error", not with its (empty)
    message. *)
Lemma empty_reject_reason :
  task_entries (relay_task "wss://relay.example"
    [WsOpen; WsMessage (Some (JArr [JStr "OK"; JStr "aa"; JBool false; JStr ""]))])
    = [RelayRejection "wss://relay.example" (JStr "Unknown relay error")] /\
  ~ In (RelayRejection "wss://relay.example" (JStr ""))
       (task_entries (relay_task "wss://relay.example"
          [WsOpen; WsMessage (Some (JArr [JStr "OK"; JStr "aa"; JBool false; JStr ""]))])).
Proof.
  split; [reflexivity|].
  vm_compute; intros [H|H]; [discriminate H|exact H].
Qed.

(** ** C9: [publishToRelays] settles without throwing. *)

(** Claim C9 (as amended): when every relay connection runs to completion,
    [publishToRelays] settles to a boolean; for the empty relay list it is
    [false] with nothing recorded; an unparsable frame is ignored (the
    connection keeps waiting); a throwing [WebSocket] constructor counts the
    relay as failed; and an error, close or timeout while waiting settles the
    relay's outcome to [false]. *)
Theorem publish_settles_without_throwing net ev relays
  (Hc : forall r, In r relays -> ws_complete (net ev r) = true) :
  (exists b, fst (publishToRelays net ev relays) = Some b) /\
  publishToRelays net ev [] = (Some false, []) /\
  (forall r s, relay_step r s (WsMessage None) = s) /\
  (forall r e rest, task_done (relay_task r (WsThrow e :: rest)) = Some false) /\
  (forall r s, waiting s ->
     r_resolved (relay_step r s WsError) = Some false /\
     r_resolved (relay_step r s WsClose) = Some false /\
     r_resolved (relay_step r s WsTimer) = Some false).
Proof.
  split; [|split; [reflexivity|split; [|split; [reflexivity|]]]].
  - rewrite publish_fst; cbv zeta; rewrite (all_finished net ev relays Hc); eauto.
  - intros r s0; simpl; destruct (r_opened s0 && negb (r_closed s0)); reflexivity.
  - intros r s0 [Ho [Hc' Hr]]; simpl; rewrite Ho; unfold resolve; simpl; rewrite Hr;
      repeat split.
Qed.

(** Counterexample to claim C9: an unparsable frame does not make the
    publish [false]; the relay keeps waiting and its later [OK ... true]
    makes the publish succeed. *)
Lemma unparsable_frame_then_ok :
  fst (publishToRelays
         (fun _ _ => [WsOpen; WsMessage None;
                      WsMessage (Some (JArr [JStr "OK"; JStr "aa"; JBool true; JStr ""])); WsTimer])
         (mkEvent "aa" "pk" "sig" 34128 0 [] "") ["wss://relay.example"]) = Some true.
Proof. reflexivity. Qed.

Lemma publish_true_iff_some_accepted_witness :
  (forall r, In r ["wss://r1"; "wss://r2"] ->
     ws_complete (w_net (demo_world false false None None [] false true)
                    (mkEvent "aa" "pk" "sig" 34128 0 [] "") r) = true) /\
  (fst (publishToRelays (w_net (demo_world false false None None [] false true))
          (mkEvent "aa" "pk" "sig" 34128 0 [] "") ["wss://r1"; "wss://r2"]) = Some true <->
   exists r, In r ["wss://r1"; "wss://r2"] /\
     responded_ok_true r (w_net (demo_world false false None None [] false true)
                            (mkEvent "aa" "pk" "sig" 34128 0 [] "") r)).
Proof.
  split; [intros r [<-|[<-|[]]]; reflexivity|].
  refine (proj1 (publish_true_iff_some_accepted
                   (w_net (demo_world false false None None [] false true))
                   (mkEvent "aa" "pk" "sig" 34128 0 [] "") ["wss://r1"; "wss://r2"] _)).
  intros r [<-|[<-|[]]]; reflexivity.
Defined.

Lemma publish_settles_without_throwing_witness :
  (forall r, In r ["wss://r1"] ->
     ws_complete ((fun _ _ => [WsOpen; WsMessage None; WsError]) (mkEvent "aa" "pk" "sig" 34128 0 [] "") r)
       = true) /\
  exists b, fst (publishToRelays (fun _ _ => [WsOpen; WsMessage None; WsError])
                   (mkEvent "aa" "pk" "sig" 34128 0 [] "") ["wss://r1"]) = Some b.
Proof.
  split; [intros r [<-|[]]; reflexivity|].
  refine (proj1 (publish_settles_without_throwing (fun _ _ => [WsOpen; WsMessage None; WsError])
                   (mkEvent "aa" "pk" "sig" 34128 0 [] "") ["wss://r1"] _)).
  intros r [<-|[]]; reflexivity.
Defined.

End Publish.

Module Purge.
Local Open Scope list_scope.

Lemma preceded_nil Q : preceded_by_sign Q [].
Proof. intros pre url hdr post H; destruct pre; discriminate. Qed.

Lemma preceded_sign Q t : preceded_by_sign Q [ASign t].
Proof. intros [|a [|b pre]] url hdr post H; discriminate. Qed.

Lemma preceded_sign_delete (Q : template -> string -> string -> Prop) t url hdr :
  Q t url hdr -> preceded_by_sign Q [ASign t; ADelete url hdr].
Proof.
  intros HQ [|a [|b pre]] u h post H; simpl in H; try discriminate.
  - inversion H; subst; exists [], t; auto.
  - inversion H; subst; destruct pre; discriminate.
Qed.

Lemma preceded_app Q l1 l2 :
  preceded_by_sign Q l1 -> preceded_by_sign Q l2 -> preceded_by_sign Q (l1 ++ l2).
Proof.
  intros H1 H2 pre url hdr post E.
  apply app_eq_app in E as [l [[E1 E2]|[E1 E2]]].
  - destruct l as [|a l]; simpl in E2.
    + subst; rewrite app_nil_r in *.
      destruct (H2 [] url hdr post eq_refl) as [pre' [t [E _]]].
      destruct pre'; discriminate.
    + inversion E2; subst; apply (H1 pre url hdr l); reflexivity.
  - destruct (H2 l url hdr post E2) as [pre' [t [-> HQ]]].
    exists (l1 ++ pre'), t; rewrite E1, app_assoc; auto.
Qed.

Lemma preceded_concat Q segs :
  Forall (preceded_by_sign Q) segs -> preceded_by_sign Q (concat segs).
Proof.
  induction 1; simpl; [apply preceded_nil|apply preceded_app; assumption].
Qed.

Lemma preceded_weaken (Q Q' : template -> string -> string -> Prop) l :
  (forall t u h, Q t u h -> Q' t u h) -> preceded_by_sign Q l -> preceded_by_sign Q' l.
Proof.
  intros W H pre url hdr post E; destruct (H pre url hdr post E) as [pre' [t [E' HQ]]]; eauto.
Qed.

(** [delete_on_servers] always returns, and every DELETE it sends is
    authorized as [delete_authorized] says. *)
Lemma delete_on_servers_spec w servers f h s :
  exists s' d, delete_on_servers w servers f h s = Ok tt s' /\
    s_log s' = s_log s ++ d /\
    preceded_by_sign (delete_authorized w servers f h) d.
Proof.
  revert s; induction servers as [|server rest IH]; intros s.
  - exists s, []; rewrite app_nil_r; split; [reflexivity|split; [reflexivity|apply preceded_nil]].
  - destruct s as [r0 l0]; simpl delete_on_servers.
    cbv beta iota zeta delta [bind now signEvent emit lift_opt ret try_catch throw s_reads s_log].
    destruct (w_sign w _) as [g|] eqn:Hg; cbv beta iota;
      [destruct (w_btoa w _) as [b64|] eqn:Hb; cbv beta iota;
        [destruct (w_delete w _ _) as [ok|]; cbv beta iota|]|];
      match goal with |- context [delete_on_servers w rest f h ?S] =>
        destruct (IH S) as [s2 [d2 [E2 [L2 P2]]]]; rewrite E2 end;
      exists s2; eexists; (split; [reflexivity|]);
      cbv delta [s_log] in L2 |- *; rewrite L2;
      (split; [rewrite <- !app_assoc; reflexivity|]);
      try rewrite app_assoc;
      (apply preceded_app;
       [ simpl | eapply preceded_weaken; [|exact P2];
           intros t' u hd [sv [k' [g' [b' [Hin R]]]]];
           exists sv, k', g', b'; split; [right; exact Hin|exact R]]);
      try apply preceded_sign;
      apply preceded_sign_delete;
      exists server, r0, g, b64; repeat split; auto; left; reflexivity.
Qed.

Lemma preceded_no_delete Q l :
  (forall u h, ~ In (ADelete u h) l) -> preceded_by_sign Q l.
Proof.
  intros N pre url hdr post E; exfalso; apply (N url hdr); rewrite E.
  apply in_or_app; right; left; reflexivity.
Qed.

Lemma pbd_no_delete w relays f l :
  (forall u h, ~ In (ADelete u h) l) -> published_before_deletes w relays f l.
Proof.
  intros N pre url hdr post E; exfalso; apply (N url hdr); rewrite E.
  apply in_or_app; right; left; reflexivity.
Qed.

Lemma delete_after_prefix (l0 d pre post : list action) url hdr :
  l0 ++ d = pre ++ ADelete url hdr :: post -> (forall u h, ~ In (ADelete u h) l0) ->
  exists pre', pre = l0 ++ pre'.
Proof.
  intros E N; apply app_eq_app in E as [l [[E1 E2]|[E1 E2]]].
  - destruct l as [|a l]; simpl in E2.
    + exists []; rewrite app_nil_r in E1; rewrite E1, app_nil_r; reflexivity.
    + inversion E2; subst; exfalso; apply (N url hdr), in_or_app; right; left; reflexivity.
  - exists l; exact E1.
Qed.

Ltac no_delete := let u := fresh in let h := fresh in let H := fresh in
  intros u h H; simpl in H; repeat (destruct H as [H|H]; [discriminate|]); exact H.

(** One iteration of the purge loop returns or hangs in [publish]; the
    actions it logs satisfy [file_seg_ok]. *)
Lemma purge_file_shape w servers relays f cf s :
  exists seg, file_seg_ok w servers relays f seg /\
    match purge_file w servers relays f cf s with
    | Ok _ s' | Hang s' => s_log s' = s_log s ++ seg
    | _ => False
    end.
Proof.
  destruct cf as [c fl]; destruct s as [r0 l0]; unfold purge_file.
  destruct (f_event f) as [e|] eqn:He; [destruct (present (f_sha256 f)) as [h|] eqn:Hh|];
    cbv beta iota;
    try (exists []; split; [split; [apply pbd_no_delete|apply preceded_nil]; no_delete
                           |unfold ret; simpl; rewrite app_nil_r; reflexivity]).
  cbv beta iota zeta delta [bind now signEvent emit lift_opt ret try_catch throw s_reads s_log].
  destruct (w_sign w _) as [g|] eqn:Hg; cbv beta iota.
  2:{ eexists; split; [|reflexivity]; split; [apply pbd_no_delete|apply preceded_no_delete]; no_delete. }
  unfold publish.
  destruct (fst (publishToRelays _ _ _)) as [b|] eqn:Hp; cbv beta iota zeta delta [bind emit ret hang s_reads s_log].
  2:{ eexists; split; [|reflexivity]; split; [apply pbd_no_delete|apply preceded_no_delete]; no_delete. }
  match goal with |- context [delete_on_servers w servers f h ?S] =>
    destruct (delete_on_servers_spec w servers f h S) as [s2 [d2 [E2 [L2 P2]]]]; rewrite E2 end.
  cbv delta [s_log] in L2 |- *; rewrite L2.
  eexists; split; [|rewrite <- !app_assoc; reflexivity].
  split.
  - intros pre url hdr post E.
    rewrite app_assoc in E; apply delete_after_prefix in E; [|no_delete].
    destruct E as [pre' ->].
    refine (ex_intro _ e (ex_intro _ _ (ex_intro _ g (ex_intro _ b
              (conj He (conj _ (conj _ (conj Hg _)))))))); [reflexivity|left; reflexivity|].
    split; apply in_or_app; left; [left|right; left]; reflexivity.
  - rewrite app_assoc; apply preceded_app; [apply preceded_no_delete; no_delete|].
    eapply preceded_weaken; [|exact P2]; intros t u hd Q; exists h; split; [exact Hh|exact Q].
Qed.

Lemma in_firstn_in {A} n (l : list A) x : In x (firstn n l) -> In x l.
Proof. intros H; rewrite <- (firstn_skipn n l); apply in_or_app; left; exact H. Qed.

(** The purge loop logs one segment per processed entry, in order; it stops
    early only when a [publish] never finishes. *)
Lemma purge_loop_shape w servers relays files cf s :
  exists segs, Forall2 (file_seg_ok w servers relays) (firstn (length segs) files) segs /\
    match purge_loop w servers relays files cf s with
    | Ok _ s' | Hang s' => s_log s' = s_log s ++ concat segs
    | _ => False
    end.
Proof.
  revert cf s; induction files as [|f rest IH]; intros cf s.
  - exists []; split; [constructor|simpl; rewrite app_nil_r; reflexivity].
  - cbn [purge_loop]; unfold bind at 1.
    destruct (purge_file_shape w servers relays f cf s) as [seg [Hok Hm]].
    destruct (purge_file w servers relays f cf s) as [cf' s1|c s1|s1|s1]; try contradiction.
    + destruct (IH cf' s1) as [segs [HF Hm']]; exists (seg :: segs); split.
      * constructor; assumption.
      * destruct (purge_loop w servers relays rest cf' s1); try contradiction;
          rewrite Hm', Hm; simpl; rewrite app_assoc; reflexivity.
    + exists [seg]; split; [constructor; [assumption|constructor]|simpl; rewrite app_nil_r; exact Hm].
Qed.

Lemma purge_loop_log w servers relays files cf s :
  exists segs, Forall2 (file_seg_ok w servers relays) (firstn (length segs) files) segs /\
    s_log (res_state (purge_loop w servers relays files cf s)) = s_log s ++ concat segs.
Proof.
  destruct (purge_loop_shape w servers relays files cf s) as [segs [HF Hm]]; exists segs; split;
    [exact HF|destruct (purge_loop w servers relays files cf s); first [contradiction|exact Hm]].
Qed.

Lemma forall2_firstn_forall {A B} (P : A -> B -> Prop) n (l : list A) (segs : list B) :
  Forall2 P (firstn n l) segs -> Forall (fun b => exists a, In a l /\ P a b) segs.
Proof.
  intros H; remember (firstn n l) as l' eqn:E.
  assert (I : forall a, In a l' -> In a l) by (intros a Ha; subst; eapply in_firstn_in; exact Ha).
  clear E; induction H; constructor.
  - exists x; split; [apply I; left; reflexivity|assumption].
  - apply IHForall2; intros a Ha; apply I; right; exact Ha.
Qed.


(** Claim C8: every DELETE the purge loop sends comes right after the
    signing of its authorization record [t]; the request goes to
    [server/hash] for a configured server and the hash of a to-delete entry,
    with the header [Nostr <btoa(JSON of the signed t)>], and [t] is a
    kind-24242 record tagged [t=delete], [x=hash] and an expiration of the
    clock reading taken right before signing plus 120 seconds. *)
Theorem purge_delete_requests_authorized w servers relays files cf s :
  exists d,
    s_log (res_state (purge_loop w servers relays files cf s)) = s_log s ++ d /\
    preceded_by_sign
      (fun t url hdr => exists f hash, In f files /\ present (f_sha256 f) = Some hash /\
                                      delete_authorized w servers f hash t url hdr) d.
Proof.
  destruct (purge_loop_log w servers relays files cf s) as [segs [HF Hl]].
  exists (concat segs); split; [exact Hl|].
  apply preceded_concat.
  apply forall2_firstn_forall in HF.
  eapply Forall_impl; [|exact HF]; intros seg [f [Hin [_ P]]].
  eapply preceded_weaken; [|exact P]; intros t u h [hash [Hh Q]]; exists f, hash; auto.
Qed.

(** Claim C10: an entry without its record or without a (non-empty) hash is
    counted as failed, logs nothing, and the loop goes on with the rest. *)
Theorem purge_skips_incomplete_entry w servers relays f rest c fl s :
  f_event f = None \/ present (f_sha256 f) = None ->
  purge_loop w servers relays (f :: rest) (c, fl) s = purge_loop w servers relays rest (c, S fl) s.
Proof.
  intros H; cbn [purge_loop]; unfold bind, purge_file.
  destruct H as [H|H]; rewrite H; [|destruct (f_event f)]; reflexivity.
Qed.


Lemma purge_skips_incomplete_entry_witness :
  (f_event (mkFile "/x" None None) = None \/ present (f_sha256 (mkFile "/x" None None)) = None) /\
  purge_loop (demo_world false false None None [] false true) ["https://s1"] ["wss://r1"]
    [mkFile "/x" None None; demo_file "/a" "ha" "ea"] (O, O) st0
  = purge_loop (demo_world false false None None [] false true) ["https://s1"] ["wss://r1"]
      [demo_file "/a" "ha" "ea"] (O, S O) st0.
Proof.
  split; [left; reflexivity|].
  apply purge_skips_incomplete_entry; left; reflexivity.
Defined.

End Purge.

Module Command.
Local Open Scope list_scope.

Lemma compareFiles_no_remote localFiles : compareFiles localFiles [] = (localFiles, [], []).
Proof.
  induction localFiles as [|a l IH]; [reflexivity|].
  unfold compareFiles in *; simpl in *; injection IH as E1 E2; rewrite E1, E2; reflexivity.
Qed.

(** Claim C2 (amended): when the remote set is empty and a HEAD probe of the
    first local file's hash answers 2xx on a configured server, the
    ambiguity check and the change gate of [uploadCommand] give: with
    [--force], all local files to upload; without it, in non-interactive
    mode, exit 0 before any upload; in interactive mode the Confirm prompt
    decides between all local files and exit 0. *)
Theorem ambiguity_gate w o servers f rest h s s' :
  present (f_sha256 f) = Some h ->
  probe_servers w servers h s = Ok true s' ->
  (fileComparisonMessage <- ambiguity_check w o servers (f :: rest) [] ;;
   let '(toTransfer0, existing, toDelete) := compareFiles (f :: rest) [] in
   change_gate w o [] fileComparisonMessage toTransfer0 existing toDelete) s
  = if o_force o then Ok (f :: rest) s'
    else if o_nonInteractive o then Exit 0 s'
    else if w_confirm w then Ok (f :: rest) s' else Exit 0 s'.
Proof.
  intros Hh Hp; rewrite compareFiles_no_remote.
  unfold bind at 1, ambiguity_check; rewrite Hh; unfold bind; rewrite Hp.
  unfold ret, change_gate; simpl length.
  destruct (o_force o), (o_nonInteractive o), (w_confirm w), (w_displayInteractive w);
    simpl; rewrite ?app_nil_r; reflexivity.
Qed.

Lemma ambiguity_gate_witness :
  present (f_sha256 (demo_file "/a" "ha" "ea")) = Some "ha" /\
  probe_servers (demo_world false true (Some default_project) None [] true true) ["https://s1"] "ha" st0
    = Ok true (mkSt O [AHead "https://s1/ha"]) /\
  (fileComparisonMessage <-
     ambiguity_check (demo_world false true (Some default_project) None [] true true)
       (demo_options false false false) ["https://s1"] [demo_file "/a" "ha" "ea"] [] ;;
   let '(toTransfer0, existing, toDelete) := compareFiles [demo_file "/a" "ha" "ea"] [] in
   change_gate (demo_world false true (Some default_project) None [] true true)
     (demo_options false false false) [] fileComparisonMessage toTransfer0 existing toDelete) st0
  = Ok [demo_file "/a" "ha" "ea"] (mkSt O [AHead "https://s1/ha"]).
Proof.
  split; [reflexivity|split; [reflexivity|]].
  apply (ambiguity_gate (demo_world false true (Some default_project) None [] true true)
           (demo_options false false false) ["https://s1"] (demo_file "/a" "ha" "ea") [] "ha"
           st0 (mkSt O [AHead "https://s1/ha"])); reflexivity.
Defined.

(** Counterexample to claim C2: interactive mode, no [--force]; the remote
    set is empty and the server has the first file.  The user confirms, and
    the run uploads all local files instead of exiting. *)
Lemma confirmed_ambiguity_uploads_all :
  o_force (demo_options false false false) = false /\
  uploadCommand (demo_world false true (Some default_project)
                   (Some ([demo_file "/a" "ha" "ea"], [])) [] true true)
    (demo_options false false false) st0
  = Ok tt (mkSt O [AHead "https://s1/ha"; AProcessUploads [demo_file "/a" "ha" "ea"]]).
Proof. split; vm_compute; reflexivity. Qed.

(** Claim C6 (amended): with nothing new to upload and nothing to delete,
    and no [--force], the change gate exits with 0 in non-interactive mode;
    in interactive mode it asks, exits with 0 on a no, and on a yes returns
    the unchanged files, which are then uploaded again. *)
Theorem no_change_gate w o remoteFiles fileComparisonMessage existing s :
  o_force o = false ->
  change_gate w o remoteFiles fileComparisonMessage [] existing [] s =
    if o_nonInteractive o then Exit 0 s
    else if w_confirm w then Ok existing s else Exit 0 s.
Proof.
  intros Hf; unfold change_gate; rewrite Hf; simpl length.
  destruct (o_purge o), (o_nonInteractive o), (w_confirm w); reflexivity.
Qed.

Lemma no_change_gate_witness :
  o_force (demo_options false false true) = false /\
  change_gate (demo_world false true None None [] true true) (demo_options false false true)
    [demo_file "/a" "ha" "ea"] false [] [demo_file "/a" "ha" "ea"] [] st0 = Exit 0 st0.
Proof.
  split; [reflexivity|].
  apply (no_change_gate (demo_world false true None None [] true true)
           (demo_options false false true) [demo_file "/a" "ha" "ea"] false
           [demo_file "/a" "ha" "ea"] st0); reflexivity.
Defined.

(** Counterexample to claim C6: interactive mode, no [--force], nothing new
    to upload, nothing to delete and one unchanged file [/a].  The user
    confirms at the gate, and [/a] is uploaded again. *)
Lemma unchanged_file_uploaded_again :
  o_force (demo_options false false false) = false /\
  (toTransfer <- change_gate (demo_world false true None None [] true true)
                   (demo_options false false false) [demo_file "/a" "ha" "ea"] false
                   [] [demo_file "/a" "ha" "ea"] [] ;;
   upload_phase (demo_world false true None None [] true true) toTransfer
     ["https://s1"] ["wss://r1"]) st0
  = Ok tt (mkSt O [AProcessUploads [demo_file "/a" "ha" "ea"]]).
Proof. split; vm_compute; reflexivity. Qed.





















End Command.

Module PublishMore.
Import RelayFacts.
Local Open Scope list_scope.

Lemma on_rejection_keyed relay em s s' :
  on_rejection relay em s = Some s' ->
  (forall e, In e (r_entries s) -> centry_relay e = relay) ->
  forall e, In e (r_entries s') -> centry_relay e = relay.
Proof.
  unfold on_rejection; intros E; revert E; split_matches; intros E;
    inversion E; subst; unfold resolve, sock_close, add_entry; simpl; split_matches; simpl;
    intros H e He; apply in_app_or in He; destruct He as [He|[<-|[]]]; auto.
Qed.

Lemma step_keyed relay s ev :
  (forall e, In e (r_entries s) -> centry_relay e = relay) ->
  forall e, In e (r_entries (relay_step relay s ev)) -> centry_relay e = relay.
Proof.
  destruct ev; simpl; unfold on_message, resolve, sock_close, add_entry; split_matches; simpl in *;
    intros H e He; auto;
    try (apply in_app_or in He; destruct He as [He|[<-|[]]]; auto);
    eapply on_rejection_keyed; eauto.
Qed.

Lemma fold_keyed relay tr s :
  (forall e, In e (r_entries s) -> centry_relay e = relay) ->
  forall e, In e (r_entries (fold_left (relay_step relay) tr s)) -> centry_relay e = relay.
Proof.
  revert s; induction tr as [|ev tr IH]; simpl; auto.
  intros s H; apply IH, step_keyed, H.
Qed.

Lemma task_keyed relay tr e :
  In e (task_entries (relay_task relay tr)) -> centry_relay e = relay.
Proof.
  unfold relay_task; destruct tr as [|[err| | | | |] tr]; cbn [task_entries];
    [intros []|intros [<-|[]]; reflexivity|..];
    apply fold_keyed; simpl; intros ? [].
Qed.

(** [publishToRelays] only records entries under the URLs of the relays it
    was given. *)
Theorem publish_entries_of_listed_relays net ev relays e :
  In e (snd (publishToRelays net ev relays)) -> In (centry_relay e) relays.
Proof.
  unfold publishToRelays; simpl; intros H.
  apply in_flat_map in H as [t [Ht He]]; apply in_map_iff in Ht as [r [<- Hr]].
  rewrite (task_keyed r _ e He); exact Hr.
Qed.

Lemma publish_entries_of_listed_relays_witness :
  In (ConnectionError "wss://r1" "Connection failed: refused")
     (snd (publishToRelays (fun _ _ => [WsThrow "refused"])
                           (mkEvent "id1" "pk" "sig" 1 0 [] "") ["wss://r1"])) /\
  In (centry_relay (ConnectionError "wss://r1" "Connection failed: refused")) ["wss://r1"].
Proof.
  assert (H : In (ConnectionError "wss://r1" "Connection failed: refused")
                 (snd (publishToRelays (fun _ _ => [WsThrow "refused"])
                                       (mkEvent "id1" "pk" "sig" 1 0 [] "") ["wss://r1"])))
    by (vm_compute; left; reflexivity).
  split; [exact H|exact (publish_entries_of_listed_relays _ _ _ _ H)].
Defined.

Lemma timer_entry_opened relay tr s :
  r_opened s = true -> existsb is_timer tr = true ->
  In (ConnectionError relay "Timeout waiting for response")
     (r_entries (fold_left (relay_step relay) tr s)).
Proof.
  revert s; induction tr as [|ev tr IH]; simpl; intros s Ho Ht; [discriminate|].
  destruct ev; simpl in Ht;
    try (apply IH; [apply step_opened_mono; exact Ho|exact Ht]).
  apply fold_keeps_entry; simpl; rewrite Ho; unfold resolve, sock_close, add_entry; simpl.
  destruct (r_resolved s); simpl; apply in_or_app; right; left; reflexivity.
Qed.

Lemma timer_entry_fold relay tr s :
  timer_after_open tr = true ->
  In (ConnectionError relay "Timeout waiting for response")
     (r_entries (fold_left (relay_step relay) tr s)).
Proof.
  revert s; induction tr as [|ev tr IH]; simpl; intros s H; [discriminate|].
  destruct ev; try (apply IH; exact H).
  apply timer_entry_opened; [|exact H].
  unfold relay_step; destruct (r_opened s) eqn:E; [exact E|reflexivity].
Qed.

(** The 5 s timer set when the socket opens is never cleared: when it fires,
    the relay gets a "Timeout waiting for response" connection error in the
    collector, also when it had already accepted the event. *)
Theorem timeout_recorded_after_open relay tr :
  (forall e rest, tr <> WsThrow e :: rest) -> timer_after_open tr = true ->
  In (ConnectionError relay "Timeout waiting for response") (task_entries (relay_task relay tr)).
Proof.
  intros Hn Ht; destruct tr as [|ev tr]; [discriminate|].
  destruct ev; [exfalso; eapply Hn; reflexivity| | | | |];
    apply timer_entry_fold; exact Ht.
Qed.

Lemma timeout_recorded_after_open_witness :
  (forall e rest, [WsOpen; WsMessage (Some (JArr [JStr "OK"; JStr "aa"; JBool true])); WsClose; WsTimer]
                  <> WsThrow e :: rest) /\
  timer_after_open [WsOpen; WsMessage (Some (JArr [JStr "OK"; JStr "aa"; JBool true])); WsClose; WsTimer]
    = true /\
  task_success (relay_task "wss://r1"
    [WsOpen; WsMessage (Some (JArr [JStr "OK"; JStr "aa"; JBool true])); WsClose; WsTimer]) = true /\
  In (ConnectionError "wss://r1" "Timeout waiting for response")
     (task_entries (relay_task "wss://r1"
        [WsOpen; WsMessage (Some (JArr [JStr "OK"; JStr "aa"; JBool true])); WsClose; WsTimer])).
Proof.
  split; [intros e rest H; discriminate H|split; [reflexivity|split; [reflexivity|]]].
  apply timeout_recorded_after_open; [intros e rest H; discriminate H|reflexivity].
Defined.

Lemma forallb_perm {A} (f : A -> bool) l l' : Permutation l l' -> forallb f l = forallb f l'.
Proof.
  induction 1; simpl; try congruence.
  destruct (f x), (f y); reflexivity.
Qed.

Lemma existsb_perm {A} (f : A -> bool) l l' : Permutation l l' -> existsb f l = existsb f l'.
Proof.
  induction 1; simpl; try congruence.
  destruct (f x), (f y); reflexivity.
Qed.

(** The outcome of [publishToRelays] does not depend on the order of the
    relay list. *)
Theorem publish_outcome_order_independent net ev relays relays' :
  Permutation relays relays' ->
  fst (publishToRelays net ev relays) = fst (publishToRelays net ev relays').
Proof.
  intros P; unfold publishToRelays; simpl.
  assert (P' := Permutation_map (fun r => relay_task r (net ev r)) P).
  rewrite (forallb_perm _ _ _ P'), (existsb_perm _ _ _ P'); reflexivity.
Qed.

Lemma publish_outcome_order_independent_witness :
  Permutation ["wss://r1"; "wss://r2"] ["wss://r2"; "wss://r1"] /\
  fst (publishToRelays (fun _ r => if String.eqb r "wss://r1" then [WsOpen; WsError] else [WsThrow "x"])
         (mkEvent "aa" "pk" "sig" 1 0 [] "") ["wss://r1"; "wss://r2"])
  = fst (publishToRelays (fun _ r => if String.eqb r "wss://r1" then [WsOpen; WsError] else [WsThrow "x"])
         (mkEvent "aa" "pk" "sig" 1 0 [] "") ["wss://r2"; "wss://r1"]).
Proof.
  split; [apply perm_swap|].
  apply publish_outcome_order_independent, perm_swap.
Defined.

End PublishMore.

(* ------------------------------------------------------------------------- *)
(** * The upload summary: server tally, error messages and error groups *)

Module Summary.
Local Open Scope list_scope.

Lemma map_get_set {V} (k k' : string) (v : V) m :
  map_get k (map_set k' v m) = if String.eqb k' k then Some v else map_get k m.
Proof.
  induction m as [|[k1 v1] r IH]; simpl.
  - reflexivity.
  - destruct (String.eqb_spec k1 k'); simpl.
    + subst k1; destruct (String.eqb k' k); reflexivity.
    + rewrite IH; destruct (String.eqb_spec k' k), (String.eqb_spec k1 k); congruence.
Qed.

Lemma map_get_in_keys {V} k (v : V) m : map_get k m = Some v -> In k (map fst m).
Proof.
  induction m as [|[k1 v1] r IH]; simpl; [discriminate|].
  destruct (String.eqb_spec k1 k); [left; assumption|intros H; right; auto].
Qed.

Lemma map_get_some_in {V} k (v : V) m : map_get k m = Some v -> In (k, v) m.
Proof.
  induction m as [|[k1 v1] r IH]; simpl; [discriminate|].
  destruct (String.eqb_spec k1 k); [intros H; injection H as <-; subst; left; reflexivity|].
  intros H; right; auto.
Qed.

Lemma keys_set_in {V} k (v : V) m : In k (map fst m) -> map fst (map_set k v m) = map fst m.
Proof.
  induction m as [|[k1 v1] r IH]; simpl; [intros []|].
  destruct (String.eqb_spec k1 k); simpl; [reflexivity|].
  intros [E|H]; [congruence|rewrite IH; auto].
Qed.

Lemma keys_set_notin {V} k (v : V) m :
  ~ In k (map fst m) -> map fst (map_set k v m) = map fst m ++ [k].
Proof.
  induction m as [|[k1 v1] r IH]; simpl; [reflexivity|].
  intros N; destruct (String.eqb_spec k1 k); [exfalso; auto|].
  simpl; rewrite IH; auto.
Qed.

Lemma keys_set_nodup {V} k (v : V) m :
  NoDup (map fst m) -> NoDup (map fst (map_set k v m)).
Proof.
  intros D; destruct (in_dec String.string_dec k (map fst m)) as [I|N].
  - rewrite keys_set_in; assumption.
  - rewrite keys_set_notin by assumption.
    apply Permutation_NoDup with (k :: map fst m); [apply Permutation_cons_append|].
    constructor; assumption.
Qed.

Lemma keys_set_iff {V} k (v : V) m x :
  In x (map fst (map_set k v m)) <-> In x (map fst m) \/ x = k.
Proof.
  destruct (in_dec String.string_dec k (map fst m)) as [I|N].
  - rewrite keys_set_in by assumption; split; [auto|intros [H| ->]; assumption].
  - rewrite keys_set_notin by assumption; rewrite in_app_iff; simpl; intuition.
Qed.

Lemma in_set {V} k (v : V) m k0 v0 :
  In (k0, v0) (map_set k v m) -> In (k0, v0) m \/ (k0 = k /\ v0 = v).
Proof.
  induction m as [|[k1 v1] r IH]; simpl.
  - intros [E|[]]; injection E; auto.
  - destruct (String.eqb_spec k1 k); simpl.
    + intros [E|H]; [injection E as <- <-; subst; auto|auto].
    + intros [E|H]; [auto|destruct (IH H); auto].
Qed.

(** ** Server tally *)

Lemma tally_entry_keys m e : map fst (tally_entry m e) = map fst m.
Proof.
  destruct e as [server ok]; unfold tally_entry.
  destruct (map_get server m) as [[sc tot]|] eqn:E; [|reflexivity].
  apply keys_set_in; eapply map_get_in_keys; exact E.
Qed.

Lemma tally_result_keys m r : map fst (tally_result m r) = map fst m.
Proof.
  unfold tally_result; destruct (ur_success r); [|reflexivity].
  generalize (ur_serverResults r) m; intros es; induction es as [|e es IH]; intros m'; simpl;
    [reflexivity|rewrite IH; apply tally_entry_keys].
Qed.

Lemma tally_results_keys rs m : map fst (fold_left tally_result rs m) = map fst m.
Proof.
  revert m; induction rs as [|r rs IH]; intros m; simpl; [reflexivity|].
  rewrite IH; apply tally_result_keys.
Qed.

Lemma init_keys servers m :
  NoDup (map fst m) ->
  NoDup (map fst (fold_left (fun m server => map_set server (O, O) m) servers m)) /\
  forall k, In k (map fst (fold_left (fun m server => map_set server (O, O) m) servers m))
            <-> In k (map fst m) \/ In k servers.
Proof.
  revert m; induction servers as [|sv rest IH]; intros m D; simpl.
  - split; [assumption|intuition].
  - destruct (IH (map_set sv (O, O) m) (keys_set_nodup _ _ _ D)) as [D' I'].
    split; [exact D'|intros k; rewrite I', keys_set_iff; intuition].
Qed.

Lemma init_notin k servers m :
  ~ In k servers ->
  map_get k (fold_left (fun m server => map_set server (O, O) m) servers m) = map_get k m.
Proof.
  revert m; induction servers as [|sv rest IH]; intros m N; simpl; [reflexivity|].
  rewrite IH by (intros H; apply N; right; exact H).
  rewrite map_get_set; destruct (String.eqb_spec sv k); [exfalso; apply N; left; assumption|reflexivity].
Qed.

Lemma init_in k servers m :
  In k servers ->
  map_get k (fold_left (fun m server => map_set server (O, O) m) servers m) = Some (O, O).
Proof.
  revert m; induction servers as [|sv rest IH]; intros m I; simpl; [destruct I|].
  destruct (in_dec String.string_dec k rest) as [I'|N]; [apply IH; exact I'|].
  destruct I as [<-|I]; [|contradiction].
  rewrite init_notin by assumption; rewrite map_get_set, String.eqb_refl; reflexivity.
Qed.

Lemma tally_entries_count k es m a b :
  map_get k m = Some (a, b) ->
  map_get k (fold_left tally_entry es m) =
    Some (a + length (filter (fun e => String.eqb (fst e) k && snd e) es),
          b + length (filter (fun e => String.eqb (fst e) k) es)).
Proof.
  revert m a b; induction es as [|[s ok] es IH]; intros m a b H; simpl.
  - rewrite !Nat.add_0_r; exact H.
  - idtac.
    destruct (map_get s m) as [[sc tot]|] eqn:Es.
    + destruct (String.eqb_spec s k) as [<-|N].
      * rewrite H in Es; injection Es as <- <-.
        erewrite IH; [|rewrite map_get_set, String.eqb_refl; reflexivity].
        destruct ok; simpl; f_equal; f_equal; lia.
      * erewrite IH; [reflexivity|rewrite map_get_set; apply String.eqb_neq in N; rewrite N; exact H].
    + destruct (String.eqb_spec s k) as [<-|N]; [congruence|].
      apply IH; exact H.
Qed.

Lemma tally_results_count k rs m a b :
  map_get k m = Some (a, b) ->
  map_get k (fold_left tally_result rs m) =
    Some (a + list_sum (map (fun r => if ur_success r then
                               length (filter (fun e => String.eqb (fst e) k && snd e) (ur_serverResults r))
                             else O) rs),
          b + list_sum (map (fun r => if ur_success r then
                               length (filter (fun e => String.eqb (fst e) k) (ur_serverResults r))
                             else O) rs)).
Proof.
  revert m a b; induction rs as [|r rs IH]; intros m a b H; simpl.
  - rewrite !Nat.add_0_r; exact H.
  - unfold tally_result at 2; destruct (ur_success r).
    + erewrite IH; [|apply tally_entries_count; exact H]; f_equal; f_equal; lia.
    + erewrite IH; [|exact H]; reflexivity.
Qed.

(** The server summary lists each configured server exactly once, and no
    other; a server's [(success, total)] counts the entries of the
    successful results under that server, [success] those that succeeded:
    a failed file counts nowhere, even on servers that accepted it. *)
Theorem server_tally_counts servers results :
  NoDup (map fst (server_tally servers results)) /\
  (forall k, In k (map fst (server_tally servers results)) <-> In k servers) /\
  (forall server, In server servers ->
     map_get server (server_tally servers results) =
       Some (list_sum (map (fun r => if ur_success r then
                               length (filter (fun e => String.eqb (fst e) server && snd e)
                                              (ur_serverResults r))
                             else O) results),
             list_sum (map (fun r => if ur_success r then
                               length (filter (fun e => String.eqb (fst e) server)
                                              (ur_serverResults r))
                             else O) results))).
Proof.
  unfold server_tally; rewrite tally_results_keys; unfold tally_init.
  destruct (init_keys servers [] (NoDup_nil _)) as [D I].
  split; [exact D|split].
  - intros k; rewrite I; simpl; intuition.
  - intros server Hin.
    rewrite (tally_results_count server results _ O O (init_in server servers [] Hin)).
    reflexivity.
Qed.

(** ** Error messages *)

Lemma prefix_chars p t c :
  String.prefix p t = true -> In c (list_ascii_of_string p) -> In c (list_ascii_of_string t).
Proof.
  revert t; induction p as [|a p IH]; intros t; simpl; [intros _ []|].
  destruct t as [|b t]; cbn [String.prefix]; [intros H; discriminate H|].
  destruct (ascii_dec a b) as [<-|]; [|intros H; discriminate H].
  intros H [<-|I]; simpl; [left; reflexivity|right; apply IH; assumption].
Qed.

(** A string none of whose characters is [x] does not include a pattern
    that has [x]. *)
Lemma includes_absent t p x :
  In x (list_ascii_of_string p) ->
  (forall c, In c (list_ascii_of_string t) -> c <> x) ->
  str_includes t p = false.
Proof.
  intros Ip; induction t as [|c t IH]; intros Nt.
  - cbn [str_includes]; destruct (String.prefix p "") eqn:E; [|reflexivity].
    destruct (prefix_chars _ _ _ E Ip).
  - cbn [str_includes].
    destruct (String.prefix p (String c t)) eqn:E.
    + exfalso; exact (Nt x (prefix_chars _ _ _ E Ip) eq_refl).
    + simpl; apply IH; intros d Id; apply Nt; right; exact Id.
Qed.

(** A match of a pattern starting with [c] cannot start in a part without [c]. *)
Lemma includes_app_skip a b c p :
  (forall d, In d (list_ascii_of_string a) -> d <> c) ->
  str_includes (a ++ b) (String c p) = str_includes b (String c p).
Proof.
  induction a as [|d a IH]; intros N; [reflexivity|].
  cbn [str_includes append String.prefix].
  destruct (ascii_dec c d) as [E|_]; [exfalso; apply (N d); [left; reflexivity|congruence]|].
  simpl; apply IH; intros d' I; apply N; right; exact I.
Qed.

Lemma run_not_lt_chars s c :
  In c (list_ascii_of_string (fst (run_not_lt s))) -> c <> "<"%char.
Proof.
  induction s as [|d s IH]; simpl; [intros []|].
  destruct (Ascii.eqb_spec d "<"%char) as [_|N]; [intros []|].
  destruct (run_not_lt s) as [r rest]; simpl in *.
  intros [<-|I]; [exact N|apply IH; exact I].
Qed.

Lemma pre_match_chars s g c :
  pre_match s = Some g -> In c (list_ascii_of_string g) -> c <> "<"%char.
Proof.
  induction s as [|d s IH]; simpl; [discriminate|].
  destruct (pre_match_at (String d s)) as [r|] eqn:E; [|exact IH].
  intros H; injection H as <-; revert E; unfold pre_match_at.
  destruct (String.prefix _ _); [|intros X; discriminate X].
  generalize (run_not_lt_chars (sdrop 5 (String d s)) c).
  destruct (run_not_lt _) as [r' rest]; simpl.
  destruct (negb _ && _); [|intros _ X; discriminate X].
  intros N H; injection H as <-; exact N.
Qed.

Lemma host_run_chars s c : In c (list_ascii_of_string (host_run s)) -> host_char c = true.
Proof.
  induction s as [|d s IH]; simpl; [intros []|].
  destruct (host_char d) eqn:Hd; simpl; [intros [<-|I]; auto|intros []].
Qed.

Lemma https_match_shape s m :
  https_match s = Some m ->
  exists h, m = ("https://" ++ h)%string /\
            forall c, In c (list_ascii_of_string h) -> c <> " "%char.
Proof.
  induction s as [|d s IH]; simpl; [discriminate|].
  destruct (https_match_at (String d s)) as [r|] eqn:E; [|exact IH].
  intros H; injection H as <-; revert E; unfold https_match_at.
  destruct (String.prefix _ _); [|intros X; discriminate X].
  destruct (String.eqb _ ""); [intros X; discriminate X|].
  intros H; injection H as <-; eexists; split; [reflexivity|].
  intros c I Ec; subst c; apply host_run_chars in I; discriminate.
Qed.

Ltac chars_differ :=
  let d := fresh in let I := fresh in
  intros d I; simpl in I; intuition; subst; discriminate.

(** The message a failed upload is reported under never contains
    ["<!DOCTYPE html>"]: an HTML error page is cut to its [<pre>] text,
    its first line, or a fixed message. *)
Theorem normalize_error_no_html error :
  str_includes (normalize_error error) "<!DOCTYPE html>" = false.
Proof.
  unfold normalize_error; cbv zeta.
  match goal with |- str_includes (if str_includes ?m2 _ then _ else _) _ = false =>
    destruct (str_includes m2 "Failed to upload to any server"); [reflexivity|] end.
  match goal with |- str_includes (if str_includes ?m1 "https://" then _ else _) _ = false =>
    assert (H1 : str_includes m1 "<!DOCTYPE html>" = false);
    [|destruct (str_includes m1 "https://"); [destruct (https_match m1) as [server|] eqn:Hm|]; try exact H1]
  end.
  - match goal with |- str_includes (if str_includes ?m0 _ then _ else _) _ = false =>
      destruct (str_includes m0 "<!DOCTYPE html>") eqn:D0; [|exact D0];
      destruct (pre_match m0) as [g|] eqn:P;
      [|destruct (str_includes (first_line m0) "<!DOCTYPE html>") eqn:D2; [reflexivity|exact D2]]
    end.
    apply (includes_absent _ _ "<"%char); [left; reflexivity|].
    intros c I; exact (pre_match_chars _ _ _ P I).
  - destruct (https_match_shape _ _ Hm) as [h [-> Nh]].
    rewrite includes_app_skip by chars_differ.
    rewrite includes_app_skip by chars_differ.
    apply (includes_absent _ _ " "%char); [|exact Nh].
    simpl; tauto.
Qed.

(** An error text that starts with a line break and holds an HTML page
    without a [<pre>] block is reported under the empty message: its first
    line is empty. *)
Theorem html_after_line_break_reported_empty rest :
  str_includes rest "<!DOCTYPE html>" = true ->
  pre_match rest = None ->
  normalize_error (Some (String (ascii_of_nat 10) rest)) = "".
Proof.
  intros D P; unfold normalize_error; cbv zeta.
  replace (String.eqb (String (ascii_of_nat 10) rest) "") with false by reflexivity.
  replace (str_includes (String (ascii_of_nat 10) rest) "<!DOCTYPE html>") with true
    by (cbn [str_includes]; rewrite D, orb_true_r; reflexivity).
  replace (pre_match (String (ascii_of_nat 10) rest)) with (@None string)
    by (cbn [pre_match]; rewrite P; reflexivity).
  replace (first_line (String (ascii_of_nat 10) rest)) with "" by reflexivity.
  reflexivity.
Qed.

(** ** Error groups *)

Lemma group_add_perm g r :
  Permutation (flat_map snd (group_add g r)) (flat_map snd g ++ [ur_path r]).
Proof.
  unfold group_add; generalize (normalize_error (ur_error r)) (ur_path r); intros k p.
  induction g as [|[k1 v1] g IH]; simpl; [reflexivity|].
  destruct (String.eqb k1 k); simpl.
  - rewrite <- !app_assoc; apply Permutation_app_head, Permutation_app_comm.
  - rewrite <- app_assoc; apply Permutation_app_head, IH.
Qed.

Lemma groups_perm l g :
  Permutation (flat_map snd (fold_left group_add l g)) (flat_map snd g ++ map ur_path l).
Proof.
  revert g; induction l as [|r l IH]; intros g; simpl; [rewrite app_nil_r; reflexivity|].
  rewrite IH, group_add_perm, <- app_assoc; reflexivity.
Qed.

Lemma groups_nodup l g :
  NoDup (map fst g) -> NoDup (map fst (fold_left group_add l g)).
Proof.
  revert g; induction l as [|r l IH]; intros g D; simpl; [exact D|].
  apply IH; unfold group_add; apply keys_set_nodup; exact D.
Qed.

Lemma groups_origin (results l : list upload_result) g :
  (forall r, In r l -> In r results /\ ur_success r = false) ->
  (forall m ps p, In (m, ps) g -> In p ps ->
     exists r, In r results /\ ur_success r = false /\ ur_path r = p /\
               normalize_error (ur_error r) = m) ->
  forall m ps p, In (m, ps) (fold_left group_add l g) -> In p ps ->
    exists r, In r results /\ ur_success r = false /\ ur_path r = p /\
              normalize_error (ur_error r) = m.
Proof.
  revert g; induction l as [|r l IH]; intros g Hl Hg; simpl; [exact Hg|].
  apply IH; [intros r' I; apply Hl; right; exact I|].
  intros m ps p I Ip; unfold group_add in I; apply in_set in I as [I|[-> ->]]; [eapply Hg; eassumption|].
  destruct (map_get (normalize_error (ur_error r)) g) as [old|] eqn:E; apply in_app_or in Ip.
  - destruct Ip as [Ip|[<-|[]]].
    + eapply Hg; [apply map_get_some_in; exact E|exact Ip].
    + destruct (Hl r (or_introl eq_refl)); exists r; auto.
  - destruct Ip as [[]|[<-|[]]]; destruct (Hl r (or_introl eq_refl)); exists r; auto.
Qed.

(** The error summary partitions the failed files: each message appears
    once, the listed paths are exactly those of the failed results (with
    their multiplicity), and a path is listed under the message of a failed
    result with that path. *)
Theorem error_groups_partition results :
  NoDup (map fst (error_groups results)) /\
  Permutation (flat_map snd (error_groups results))
              (map ur_path (filter (fun r => negb (ur_success r)) results)) /\
  (forall m ps p, In (m, ps) (error_groups results) -> In p ps ->
     exists r, In r results /\ ur_success r = false /\ ur_path r = p /\
               normalize_error (ur_error r) = m).
Proof.
  unfold error_groups; split; [apply groups_nodup; constructor|split].
  - rewrite groups_perm; reflexivity.
  - apply groups_origin; [|intros m ps p []].
    intros r I; apply filter_In in I as [I E]; split; [exact I|].
    destruct (ur_success r); [discriminate|reflexivity].
Qed.

Lemma html_after_line_break_reported_empty_witness :
  str_includes "<!DOCTYPE html><html>Bad Gateway</html>" "<!DOCTYPE html>" = true /\
  pre_match "<!DOCTYPE html><html>Bad Gateway</html>" = None /\
  normalize_error (Some (String (ascii_of_nat 10) "<!DOCTYPE html><html>Bad Gateway</html>")) = "".
Proof.
  split; [vm_compute; reflexivity|split; [vm_compute; reflexivity|]].
  apply html_after_line_break_reported_empty; vm_compute; reflexivity.
Defined.

End Summary.

(* ------------------------------------------------------------------------- *)
(** * Option parsing, server requests, purge counters and metadata events *)

Module CommandMore.
Local Open Scope list_scope.

Lemma sapp_nil_r (a : string) : (a ++ "")%string = a.
Proof. induction a as [|c a IH]; simpl; [reflexivity|rewrite IH; reflexivity]. Qed.

Lemma sapp_assoc (a b c : string) : ((a ++ b) ++ c)%string = (a ++ (b ++ c))%string.
Proof. induction a as [|d a IH]; simpl; [reflexivity|rewrite IH; reflexivity]. Qed.

Lemma chars_app (a b : string) :
  list_ascii_of_string (a ++ b) = list_ascii_of_string a ++ list_ascii_of_string b.
Proof. induction a as [|d a IH]; simpl; [reflexivity|rewrite IH; reflexivity]. Qed.

Lemma split_aux_nonempty s cur : split_comma_aux s cur <> [].
Proof.
  revert cur; induction s as [|c s IH]; intros cur; simpl; [discriminate|].
  destruct (Ascii.eqb c ","%char); [discriminate|apply IH].
Qed.

Lemma concat_cons sep (x : string) l :
  l <> [] -> String.concat sep (x :: l) = (x ++ sep ++ String.concat sep l)%string.
Proof. destruct l; [contradiction|reflexivity]. Qed.

Lemma split_aux_concat s cur :
  String.concat "," (split_comma_aux s cur) = (cur ++ s)%string.
Proof.
  revert cur; induction s as [|c s IH]; intros cur; cbn [split_comma_aux].
  - rewrite sapp_nil_r; reflexivity.
  - destruct (Ascii.eqb_spec c ","%char) as [->|N].
    + rewrite concat_cons by apply split_aux_nonempty; rewrite IH; reflexivity.
    + rewrite IH, sapp_assoc; reflexivity.
Qed.

Lemma split_aux_parts s cur p :
  (forall d, In d (list_ascii_of_string cur) -> d <> ","%char) ->
  In p (split_comma_aux s cur) ->
  forall d, In d (list_ascii_of_string p) -> d <> ","%char.
Proof.
  revert cur; induction s as [|c s IH]; intros cur Hc; simpl.
  - intros [<-|[]]; exact Hc.
  - destruct (Ascii.eqb_spec c ","%char) as [->|N].
    + intros [<-|I]; [exact Hc|apply (IH "") ; [intros d []|exact I]].
    + apply IH; rewrite chars_app; intros d I; apply in_app_or in I as [I|[<-|[]]];
        [apply Hc; exact I|exact N].
Qed.

(** [s.split(",")] loses nothing: joining the parts with commas gives [s]
    back; there is at least one part, and no part contains a comma. *)
Theorem split_comma_round_trip s :
  String.concat "," (split_comma s) = s /\ split_comma s <> [] /\
  (forall p, In p (split_comma s) -> str_includes p "," = false).
Proof.
  unfold split_comma; split; [apply split_aux_concat|split; [apply split_aux_nonempty|]].
  intros p I; apply (Summary.includes_absent _ _ ","%char); [left; reflexivity|].
  apply (split_aux_parts s ""); [intros d []|exact I].
Qed.

Lemma ends_with_slash_app s : ends_with_slash (s ++ "/") = true.
Proof.
  induction s as [|c s IH]; [reflexivity|].
  destruct s as [|d s]; [reflexivity|exact IH].
Qed.

(** The URL prefix for a server always ends with ["/"]; one that already
    does is kept as is, so applying it twice changes nothing. *)
Theorem ensure_slash_spec server :
  ends_with_slash (ensure_slash server) = true /\
  (ends_with_slash server = true -> ensure_slash server = server) /\
  ensure_slash (ensure_slash server) = ensure_slash server.
Proof.
  unfold ensure_slash; destruct (ends_with_slash server) eqn:E.
  - rewrite E; split; [reflexivity|split; [intros _|]; reflexivity].
  - rewrite ends_with_slash_app; split; [reflexivity|split; [intros H; discriminate H|reflexivity]].
Qed.

(** The ambiguity probe sends HEAD requests to the servers in order and
    stops at the first that answers 2xx; a server that errors or answers
    otherwise is skipped.  Without such a server every server is asked and
    the answer is [false]. *)
Theorem probe_stops_at_first_hit w servers h s :
  ((forall sv, In sv servers -> w_head w (ensure_slash sv ++ h)%string <> Some true) ->
   probe_servers w servers h s =
     Ok false (mkSt (s_reads s) (s_log s ++ map (fun sv => AHead (ensure_slash sv ++ h)%string) servers))) /\
  (forall pre sv post, servers = pre ++ sv :: post ->
   (forall sv', In sv' pre -> w_head w (ensure_slash sv' ++ h)%string <> Some true) ->
   w_head w (ensure_slash sv ++ h)%string = Some true ->
   probe_servers w servers h s =
     Ok true (mkSt (s_reads s) (s_log s ++ map (fun sv => AHead (ensure_slash sv ++ h)%string) (pre ++ [sv])))).
Proof.
  split.
  - revert s; induction servers as [|sv rest IH]; intros s N; simpl.
    + rewrite app_nil_r; destruct s; reflexivity.
    + unfold bind, emit; simpl.
      destruct (w_head w (ensure_slash sv ++ h)%string) as [[|]|] eqn:E;
        [exfalso; exact (N sv (or_introl eq_refl) E)| |];
        (rewrite IH; [simpl; rewrite <- app_assoc; reflexivity|intros sv' I; apply N; right; exact I]).
  - intros pre; revert servers s; induction pre as [|p pre IH]; intros servers s sv post -> Np Hs; simpl.
    + unfold bind, emit; simpl; rewrite Hs; reflexivity.
    + unfold bind, emit; simpl.
      destruct (w_head w (ensure_slash p ++ h)%string) as [[|]|] eqn:E;
        [exfalso; exact (Np p (or_introl eq_refl) E)| |];
        (rewrite (IH _ _ sv post eq_refl); [simpl; rewrite <- app_assoc; reflexivity
                                          |intros sv' I; apply Np; right; exact I|exact Hs]).
Qed.

Lemma delete_urls_app l l' : delete_urls (l ++ l') = delete_urls l ++ delete_urls l'.
Proof. unfold delete_urls; apply flat_map_app. Qed.

(** When signing and base64 encoding succeed, the DELETE of a file's hash
    goes to every server once, in order, at the server's URL followed by
    the hash; a DELETE that fails does not stop the next ones. *)
Theorem delete_requests_each_server w servers f h s :
  (forall t, w_sign w t <> None) -> (forall x, w_btoa w x <> None) ->
  exists s', delete_on_servers w servers f h s = Ok tt s' /\
    delete_urls (s_log s') = delete_urls (s_log s) ++ map (fun sv => (ensure_slash sv ++ h)%string) servers.
Proof.
  intros Hs Hb; revert s; induction servers as [|server rest IH]; intros s.
  - exists s; rewrite app_nil_r; split; reflexivity.
  - destruct s as [r0 l0]; simpl delete_on_servers.
    cbv beta iota zeta delta [bind now signEvent emit lift_opt ret try_catch throw s_reads s_log].
    destruct (w_sign w _) as [g|] eqn:Hg; [|exfalso; eapply Hs; exact Hg]; cbv beta iota.
    destruct (w_btoa w _) as [b64|] eqn:Hb64; [|exfalso; eapply Hb; exact Hb64]; cbv beta iota.
    destruct (w_delete w _ _) as [ok|]; cbv beta iota;
      match goal with |- context [delete_on_servers w rest f h ?S] =>
        destruct (IH S) as [s2 [E2 L2]]; rewrite E2 end;
      exists s2; (split; [reflexivity|]); cbv delta [s_log] in L2 |- *; rewrite L2;
      rewrite !delete_urls_app, <- !app_assoc; reflexivity.
Qed.

Lemma purge_file_counts w servers relays f c fl s :
  match purge_file w servers relays f (c, fl) s with
  | Ok (c', fl') _ => c' + fl' = S (c + fl)
  | Hang _ => True
  | _ => False
  end.
Proof.
  destruct s as [r0 l0]; unfold purge_file.
  destruct (f_event f) as [e|]; [destruct (present (f_sha256 f)) as [h|]|];
    cbv beta iota; try (unfold ret; lia).
  cbv beta iota zeta delta [bind now signEvent emit lift_opt ret try_catch throw s_reads s_log].
  destruct (w_sign w _) as [g|]; cbv beta iota; [|lia].
  unfold publish.
  destruct (fst (publishToRelays _ _ _)) as [b|]; cbv beta iota zeta delta [bind emit ret hang s_reads s_log];
    [|exact I].
  match goal with |- context [delete_on_servers w servers f h ?S] =>
    destruct (Purge.delete_on_servers_spec w servers f h S) as [s2 [d2 [E2 _]]]; rewrite E2 end.
  reflexivity.
Qed.

(** The purge loop never exits or throws: it finishes, or waits forever on
    a publish that never settles.  When it finishes, completed plus failed
    has grown by exactly the number of entries to delete. *)
Theorem purge_loop_counts w servers relays files c fl s :
  match purge_loop w servers relays files (c, fl) s with
  | Ok (c', fl') _ => c' + fl' = c + fl + length files
  | Hang _ => True
  | _ => False
  end.
Proof.
  revert c fl s; induction files as [|f rest IH]; intros c fl s; cbn [purge_loop length].
  - unfold ret; lia.
  - unfold bind at 1; generalize (purge_file_counts w servers relays f c fl s).
    destruct (purge_file w servers relays f (c, fl) s) as [[c1 fl1] s1|k s1|s1|s1]; try tauto.
    intros E; generalize (IH c1 fl1 s1).
    destruct (purge_loop w servers relays rest (c1, fl1) s1) as [[c2 fl2] s2|k s2|s2|s2]; try tauto.
    lia.
Qed.

Lemma signed_templates_app l l' :
  signed_templates (l ++ l') = signed_templates l ++ signed_templates l'.
Proof. unfold signed_templates; apply flat_map_app. Qed.

Lemma metadata_event_spec w relays k content tags s :
  (forall ev, fst (publishToRelays (w_net w) ev relays) <> None) ->
  exists s' d,
    try_catch
      (t <- now w ;;
       ev <- signEvent w (mkTemplate k (t / 1000) content tags) ;;
       _ <- publish w ev relays ;; ret tt)
      (ret tt) s = Ok tt s' /\
    s_log s' = s_log s ++ d /\
    map (fun t => (t_kind t, t_content t, t_tags t)) (signed_templates d) = [(k, content, tags)] /\
    (forall ev rl b, In (APublish ev rl b) d -> rl = relays).
Proof.
  intros Hp; destruct s as [r0 l0].
  cbv beta iota zeta delta [bind now signEvent emit lift_opt ret try_catch throw s_reads s_log].
  destruct (w_sign w _) as [g|]; cbv beta iota.
  - unfold publish.
    match goal with |- context [fst (publishToRelays ?n ?e ?r)] =>
      destruct (fst (publishToRelays n e r)) as [b|] eqn:Eb; [|exfalso; exact (Hp e Eb)] end.
    cbv beta iota zeta delta [bind emit ret s_reads s_log].
    do 2 eexists; split; [reflexivity|]; split; [rewrite <- app_assoc; reflexivity|].
    split; [reflexivity|].
    intros ev rl b' [E|[E|[]]]; [discriminate|injection E; auto].
  - do 2 eexists; split; [reflexivity|]; split; [reflexivity|].
    split; [reflexivity|]; intros ev rl b' [E|[]]; discriminate.
Qed.

Lemma metadata_optional_spec w relays (cond : bool) k content tags s :
  (forall ev, fst (publishToRelays (w_net w) ev relays) <> None) ->
  exists s' d,
    (if cond then
       try_catch
         (t <- now w ;;
          ev <- signEvent w (mkTemplate k (t / 1000) content tags) ;;
          _ <- publish w ev relays ;; ret tt)
         (ret tt)
     else ret tt) s = Ok tt s' /\
    s_log s' = s_log s ++ d /\
    map (fun t => (t_kind t, t_content t, t_tags t)) (signed_templates d) =
      (if cond then [(k, content, tags)] else []) /\
    (forall ev rl b, In (APublish ev rl b) d -> rl = relays).
Proof.
  intros Hp; destruct cond; [apply metadata_event_spec; exact Hp|].
  exists s, []; rewrite app_nil_r; split; [reflexivity|split; [reflexivity|split; [reflexivity|]]].
  intros ev rl b [].
Qed.

(** When every publish settles, the metadata step returns normally; it
    signs, in this order, the relay list (kind 10002, an [r] tag per relay)
    when [--publish-relay-list] is given, the server list (kind 10063, a
    [server] tag per server) when [--publish-server-list] is given, and the
    profile (kind 0) when [--publish-profile] is given and the project has
    one; the project's [publishRelayList] and [publishServerList] play no
    part.  Every event goes to the command's relays. *)
Theorem metadata_signed_events w o pd relays servers s :
  (forall ev, fst (publishToRelays (w_net w) ev relays) <> None) ->
  exists s' d, publish_metadata w o pd relays servers s = Ok tt s' /\
    s_log s' = s_log s ++ d /\
    map (fun t => (t_kind t, t_content t, t_tags t)) (signed_templates d) =
      (if o_publishRelayList o
       then [(10002%Z, "", map (fun url => ["r"; url]) relays ++ [["client"; "nsyte"]])] else []) ++
      (if o_publishServerList o
       then [(10063%Z, "", map (fun url => ["server"; url]) servers ++ [["client"; "nsyte"]])] else []) ++
      (match o_publishProfile o, pd_profile pd with
       | true, Some profileContent => [(0%Z, profileContent, [["client"; "nsyte"]])]
       | _, _ => []
       end) /\
    (forall ev rl b, In (APublish ev rl b) d -> rl = relays).
Proof.
  intros Hp; unfold publish_metadata, bind at 1.
  destruct (metadata_optional_spec w relays (o_publishRelayList o) 10002 ""
              (map (fun url => ["r"; url]) relays ++ [["client"; "nsyte"]]) s Hp)
    as [s1 [d1 [E1 [L1 [K1 P1]]]]].
  rewrite E1; unfold bind at 1.
  destruct (metadata_optional_spec w relays (o_publishServerList o) 10063 ""
              (map (fun url => ["server"; url]) servers ++ [["client"; "nsyte"]]) s1 Hp)
    as [s2 [d2 [E2 [L2 [K2 P2]]]]].
  rewrite E2.
  assert (E3 : exists s3 d3,
    match o_publishProfile o, pd_profile pd with
    | true, Some profileContent =>
        try_catch
          (t <- now w ;;
           ev <- signEvent w (mkTemplate 0 (t / 1000) profileContent [["client"; "nsyte"]]) ;;
           _ <- publish w ev relays ;; ret tt)
          (ret tt)
    | _, _ => ret tt
    end s2 = Ok tt s3 /\ s_log s3 = s_log s2 ++ d3 /\
    map (fun t => (t_kind t, t_content t, t_tags t)) (signed_templates d3) =
      match o_publishProfile o, pd_profile pd with
      | true, Some profileContent => [(0%Z, profileContent, [["client"; "nsyte"]])]
      | _, _ => []
      end /\
    (forall ev rl b, In (APublish ev rl b) d3 -> rl = relays)).
  { destruct (o_publishProfile o); [destruct (pd_profile pd) as [pc|]|];
      try (apply metadata_event_spec; exact Hp);
      (exists s2, []; rewrite app_nil_r; split; [reflexivity|split; [reflexivity|split; [reflexivity|]]];
       intros ev rl b []). }
  destruct E3 as [s3 [d3 [E3 [L3 [K3 P3]]]]].
  exists s3, (d1 ++ d2 ++ d3); split; [exact E3|split].
  - rewrite L3, L2, L1, <- !app_assoc; reflexivity.
  - rewrite !signed_templates_app, !map_app, K1, K2, K3; split; [reflexivity|].
    intros ev rl b I; apply in_app_or in I as [I|I]; [eauto|apply in_app_or in I as [I|I]; eauto].
Qed.

Lemma delete_requests_each_server_witness :
  (forall t, w_sign (demo_world false false None None [] true true) t <> None) /\
  (forall x, w_btoa (demo_world false false None None [] true true) x <> None) /\
  exists s', delete_on_servers (demo_world false false None None [] true true)
               ["https://s1"; "https://s2/"] (demo_file "/index.html" "abc" "e1") "abc" st0 = Ok tt s' /\
    delete_urls (s_log s') =
      delete_urls (s_log st0) ++ map (fun sv => (ensure_slash sv ++ "abc")%string) ["https://s1"; "https://s2/"].
Proof.
  assert (H1 : forall t, w_sign (demo_world false false None None [] true true) t <> None)
    by (intros t; simpl; discriminate).
  assert (H2 : forall x, w_btoa (demo_world false false None None [] true true) x <> None)
    by (intros x; simpl; discriminate).
  split; [exact H1|split; [exact H2|]].
  apply delete_requests_each_server; assumption.
Defined.

Lemma metadata_signed_events_witness :
  (forall ev, fst (publishToRelays (w_net (demo_world false false None None [] true true)) ev ["wss://r1"])
              <> None) /\
  exists s' d,
    publish_metadata (demo_world false false None None [] true true)
      (mkOptions false false (Some "https://s1") (Some "wss://r1") (Some "nsec1") None None None
                 true true true true)
      (mkProject ["wss://r1"] ["https://s1"] None None (Some "{}") false false)
      ["wss://r1"] ["https://s1"] st0 = Ok tt s' /\
    s_log s' = s_log st0 ++ d /\
    map (fun t => (t_kind t, t_content t, t_tags t)) (signed_templates d) =
      [(10002%Z, "", [["r"; "wss://r1"]; ["client"; "nsyte"]]);
       (10063%Z, "", [["server"; "https://s1"]; ["client"; "nsyte"]]);
       (0%Z, "{}", [["client"; "nsyte"]])] /\
    (forall ev rl b, In (APublish ev rl b) d -> rl = ["wss://r1"]).
Proof.
  assert (H : forall ev, fst (publishToRelays (w_net (demo_world false false None None [] true true))
                                             ev ["wss://r1"]) <> None)
    by (intros ev; vm_compute; discriminate).
  split; [exact H|].
  exact (metadata_signed_events (demo_world false false None None [] true true)
           (mkOptions false false (Some "https://s1") (Some "wss://r1") (Some "nsec1") None None None
                      true true true true)
           (mkProject ["wss://r1"] ["https://s1"] None None (Some "{}") false false)
           ["wss://r1"] ["https://s1"] st0 H).
Defined.

End CommandMore.
